(** * The Swahili interpreter: evaluation core

    A shallow embedding of [bin/interpreter/interpreter.js] (the
    [Interpreter] visitors and the function classes that live in the same
    file), [bin/interpreter/types/value.js] (the [SWValue] base class),
    [bin/interpreter/types/base-function.js] (the stand-alone function base
    class) and the stand-alone built-in [soma], followed by the properties
    of the evaluation core that the specification states about them.

    Conventions of the model:
    - a JavaScript reference that may be [null] is an [option];
    - Number payloads are integers ([Z]). The counter of a [kwa] loop is
      followed while it is a safe integer, where the arithmetic of
      JavaScript's numbers is that of the integers, and the model is
      [Unsupported] beyond;
    - symbol tables change all along a run, so they live in a store
      ([tables]) and are named by their index; contexts are built once and
      never change, so they are plain values;
    - [setPosition] and [setContext] change a value object in place, and
      are modelled as functions returning the restamped value. The
      visitors apply them to values they have just created or copied,
      where the two agree. [populateArgs] applies [setContext] to the
      argument objects: there the two agree for an argument that no symbol
      table holds, and [heldBy] says so in the properties that speak of
      the tables other than the new one. The stand-alone [populateArgs]
      also changes the one shared [SWNull.NULL], whose state is an
      argument of its model;
    - a JavaScript exception (a [TypeError] on a null dereference, a
      [ReferenceError], an explicit [throw]) is the outcome [Throw];
    - classes that the interpreter requires but that are not part of the
      embedded files ([SWNumber], [SWString], [SWBoolean], [SWList],
      [SWNull] and the colouring library) are the interface
      [MissingClasses]. *)

From stdpp Require Import base option strings list gmap pretty.
From Stdlib Require Import ZArith Lia Ascii.

Set Warnings "-register-all".

Open Scope string_scope.
Open Scope Z_scope.
Open Scope list_scope.

(** ** Positions, tokens and syntax trees *)

(** Modelled from the spec: the class [Position], which is not among the
    embedded files: a file name, a line, a column and an offset. *)
Record Position := mkPosition {
  fn : string;
  ln : nat;
  col : nat;
  idx : nat
}.

(** Modelled from the spec: the token types of [tokenTypes.js], which is
    not among the embedded files, as far as they are operators: the tags
    that [visitBinOpNode] and [visitUnaryOpNode] compare [opTok.type]
    with. *)
Inductive TokenType :=
  | PLUS | MINUS | MUL | DIV | POW
  | EE | NE | LT | GT | LTE | GTE
  | AND | OR | NOT.

(** The nodes that the parser builds. One constructor per node class that
    has a [visit<Class>] method, with the fields that the method reads, and
    [OtherNode] for any other class name (dispatched to [noVisitMethod]).
    The last two arguments of every node are [posStart] and [posEnd]. *)
Inductive Node :=
  | NumberNode (value : Z) (posStart posEnd : Position)
  | StringNode (value : string) (posStart posEnd : Position)
  | ListNode (elementNodes : list Node) (posStart posEnd : Position)
  | VarAccessNode (varName : string) (posStart posEnd : Position)
  | VarAssignNode (varName : string) (valueNode : Node)
      (posStart posEnd : Position)
  | BinOpNode (leftNode : Node) (opTok : TokenType) (rightNode : Node)
      (posStart posEnd : Position)
  | UnaryOpNode (opTok : TokenType) (node : Node) (posStart posEnd : Position)
  | IfNode (cases : list (Node * Node)) (elseCase : option Node)
      (posStart posEnd : Position)
  | ForNode (varName : string) (startValueNode endValueNode : Node)
      (stepValueNode : option Node) (bodyNode : Node)
      (posStart posEnd : Position)
  | WhileNode (conditionNode bodyNode : Node) (posStart posEnd : Position)
  | FuncDefNode (varName : option string) (argNames : list string)
      (bodyNode : Node) (posStart posEnd : Position)
  | CallNode (nodeToCall : Node) (argNodes : list Node)
      (posStart posEnd : Position)
  | OtherNode (className : string).

(** ** Contexts *)

(** Symbol tables are named by their index in the store. *)
Abbreviation TableId := nat (only parsing).

(** Modelled from the spec: the class [Context] of
    [bin/interpreter/context.js], which is not among the embedded files.
    The source builds one with [new Context(displayName, parent,
    parentEntryPos)] followed by the assignment of its [symbolTable]; a
    context is not changed afterwards. *)
Inductive Context := mkContext {
  displayName : string;
  parent : option Context;
  parentEntryPos : option Position;
  symbolTable : TableId
}.

(** ** Values *)

(** The fields every [SWValue] has: [posStart], [posEnd], [context]. *)
Record Stamp := mkStamp {
  posStart : option Position;
  posEnd : option Position;
  context : option Context
}.

(** What the constructor of [SWValue] leaves: [setPosition()] and
    [setContext()] with their default arguments. *)
Definition fresh : Stamp := mkStamp None None None.

(** The names in the static registry at the end of [SWBuiltInFunction]; no
    other built-in is ever constructed ([copy] keeps the name). *)
Inductive BuiltinName :=
  | andika | soma | somaNambari | futa
  | niNambari | niJina | niOrodha | niShughuli | idadi.

Inductive SWValue :=
  | SWValueBase (st : Stamp)
  | SWNumber (value : Z) (st : Stamp)
  | SWString (value : string) (st : Stamp)
  | SWBoolean (value : bool) (st : Stamp)
  | SWList (elements : list (option SWValue)) (st : Stamp)
  | SWNull (st : Stamp)
  | SWFunction (name : string) (bodyNode : Node) (argNames : list string)
      (st : Stamp)
  | SWBuiltInFunction (name : BuiltinName) (st : Stamp).

(** A JavaScript reference to a value: [None] is [null]. *)
Definition ValRef := option SWValue.

Definition stamp (v : SWValue) : Stamp :=
  match v with
  | SWValueBase st | SWNumber _ st | SWString _ st | SWBoolean _ st
  | SWList _ st | SWNull st | SWFunction _ _ _ st | SWBuiltInFunction _ st =>
      st
  end.

Definition restamp (f : Stamp → Stamp) (v : SWValue) : SWValue :=
  match v with
  | SWValueBase st => SWValueBase (f st)
  | SWNumber n st => SWNumber n (f st)
  | SWString s st => SWString s (f st)
  | SWBoolean b st => SWBoolean b (f st)
  | SWList l st => SWList l (f st)
  | SWNull st => SWNull (f st)
  | SWFunction n b a st => SWFunction n b a (f st)
  | SWBuiltInFunction n st => SWBuiltInFunction n (f st)
  end.

Definition setPosition (ps pe : option Position) (v : SWValue) : SWValue :=
  restamp (λ st, mkStamp ps pe (context st)) v.

Definition setContext (c : option Context) (v : SWValue) : SWValue :=
  restamp (λ st, mkStamp (posStart st) (posEnd st) c) v.

(** [v instanceof SWBaseFunction] *)
Definition isFunction (v : SWValue) : bool :=
  match v with
  | SWFunction _ _ _ _ | SWBuiltInFunction _ _ => true
  | _ => false
  end.

(** The classes defined in the embedded files: the base class itself and
    the two function classes. The other five are [MissingClasses]. *)
Definition inSource (v : SWValue) : bool :=
  match v with
  | SWValueBase _ | SWFunction _ _ _ _ | SWBuiltInFunction _ _ => true
  | _ => false
  end.

(** ** Runtime errors and results *)

(** The class [RTError] is not among the embedded files; every error of
    the source is built by [new RTError(posStart, posEnd, details,
    context)], and an error is these four arguments. *)
Record RTError := mkRTError {
  errStart : option Position;
  errEnd : option Position;
  details : string;
  errContext : option Context
}.

(** Modelled from the spec: the class [RTResult] of
    [bin/interpreter/runtimeResult.js], which is not among the embedded
    files. It carries a value or an error; [register] copies the error of a
    sub-result into the receiver and hands back the sub-result's value. *)
Record RTResult := mkRTResult {
  resValue : ValRef;
  resError : option RTError
}.

(** Modelled from the spec: [new RTResult()], neither value nor error. *)
Definition newRTResult : RTResult := mkRTResult None None.

(** Modelled from the spec: [success(v)], value set, error null. *)
Definition success (res : RTResult) (v : ValRef) : RTResult :=
  mkRTResult v None.

(** Modelled from the spec: [failure(e)], error set, value null. *)
Definition failure (res : RTResult) (e : RTError) : RTResult :=
  mkRTResult None (Some e).

(** Modelled from the spec: [register(other)]; the pair is what the call
    returns and what the receiver has become. *)
Definition register (res other : RTResult) : ValRef * RTResult :=
  (resValue other,
   match resError other with
   | Some e => mkRTResult (resValue res) (Some e)
   | None => res
   end).

(** ** The store: symbol tables and the terminal *)

(** Modelled from the spec: the class [SymbolTable] of
    [bin/interpreter/symbolTable.js], which is not among the embedded
    files: a map from names to values and an optional parent table. *)
Record SymbolTable := mkSymbolTable {
  symbols : gmap string ValRef;
  tableParent : option TableId
}.

(** Modelled from the spec: the host functions [print], [prompt] and
    [console.clear], by what they do to the terminal, in order. *)
Inductive HostEvent :=
  | Printed (text : string)
  | Prompted (text : string)
  | Cleared.

Record World := mkWorld {
  tables : list SymbolTable;
  output : list HostEvent;
  input : list string
}.

(** Modelled from the spec: [get(name)] looks in the table itself, then
    along the parent chain, and is null when the name is bound nowhere. A
    parent is always created before its child, so a chain is never longer
    than the store; [depth] only makes the recursion structural. *)
Fixpoint chainGet (depth : nat) (ts : list SymbolTable) (t : TableId)
    (name : string) : ValRef :=
  match depth with
  | O => None
  | S depth' =>
      match ts !! t with
      | None => None
      | Some tb =>
          match symbols tb !! name with
          | Some v => v
          | None =>
              match tableParent tb with
              | Some p => chainGet depth' ts p name
              | None => None
              end
          end
      end
  end.

Definition get (t : TableId) (name : string) (w : World) : ValRef :=
  chainGet (length (tables w)) (tables w) t name.

(** Modelled from the spec: [set(name, value)] writes into the table
    itself and never walks up. *)
Definition set (t : TableId) (name : string) (v : ValRef) (w : World)
    : World :=
  mkWorld
    (alter (λ tb, mkSymbolTable (<[name := v]> (symbols tb)) (tableParent tb))
       t (tables w))
    (output w) (input w).

(** Modelled from the spec: [remove(name)] deletes from the table itself.
    No visitor calls it. *)
Definition remove (t : TableId) (name : string) (w : World) : World :=
  mkWorld
    (alter (λ tb, mkSymbolTable (delete name (symbols tb)) (tableParent tb))
       t (tables w))
    (output w) (input w).

(** The binding of [name] in table [t] itself, without the parent chain. *)
Definition ownBinding (t : TableId) (name : string) (w : World)
    : option ValRef :=
  tb ← tables w !! t; symbols tb !! name.

Definition parentOf (t : TableId) (w : World) : option TableId :=
  tb ← tables w !! t; tableParent tb.

(** ** Outcomes of running JavaScript *)

Inductive JsError :=
  | TypeError (msg : string)
  | ReferenceError (msg : string)
  | Error (msg : string).

(** [Done]: the call returned. [Throw]: it threw. [Unsupported]: it left
    the integer model of Numbers. [OutOfFuel]: the recursion budget of the
    model was too small. *)
Inductive Exec (A : Type) :=
  | Done (a : A)
  | Throw (e : JsError)
  | Unsupported (why : string)
  | OutOfFuel.

Arguments Done {A} a.
Arguments Throw {A} e.
Arguments Unsupported {A} why.
Arguments OutOfFuel {A}.

Definition Eval (A : Type) : Type := World → Exec A * World.

Definition ret {A} (a : A) : Eval A := λ w, (Done a, w).

Definition bind {A B} (m : Eval A) (k : A → Eval B) : Eval B :=
  λ w,
    match m w with
    | (Done a, w') => k a w'
    | (Throw e, w') => (Throw e, w')
    | (Unsupported why, w') => (Unsupported why, w')
    | (OutOfFuel, w') => (OutOfFuel, w')
    end.

Definition throw {A} (e : JsError) : Eval A := λ w, (Throw e, w).
Definition unsupported {A} (why : string) : Eval A :=
  λ w, (Unsupported why, w).
Definition outOfFuel {A} : Eval A := λ w, (OutOfFuel, w).
Definition update (f : World → World) : Eval unit := λ w, (Done (), f w).
Definition read {A} (f : World → A) : Eval A := λ w, (Done (f w), w).

Notation "'let*' x ':=' m 'in' k" := (bind m (λ x, k))
  (at level 10, x name, m at level 100, k at level 200, only parsing).
Notation "'let*' ' ( x , y ) ':=' m 'in' k" := (bind m (λ '(x, y), k))
  (at level 10, x name, y name, m at level 100, k at level 200,
   only parsing).

(** Modelled from the spec: [new SymbolTable(parent)], an empty table; it
    gets the next free index of the store. *)
Definition newSymbolTable (p : option TableId) : Eval TableId :=
  λ w,
    (Done (length (tables w)),
     mkWorld (tables w ++ [mkSymbolTable ∅ p]) (output w) (input w)).

(** ** The value classes that are not embedded *)

(** The pair [[result, error]] that every operation method returns. *)
Definition OpResult : Type := ValRef * option RTError.

(** The methods of [SWNumber], [SWString], [SWBoolean], [SWList] and
    [SWNull] that the interpreter calls, the two colouring functions of the
    [colors] package, and the reading of an input line as a number
    ([isNaN] holds where [parseNumber] is [None]). [sub_binop] is [None]
    where the result is not an integer. The methods are only ever applied
    to values of those five classes. *)
Class MissingClasses := {
  sub_isTrue : SWValue → bool;
  sub_notted : SWValue → OpResult;
  sub_copy : SWValue → SWValue;
  sub_binop : TokenType → SWValue → ValRef → option OpResult;
  sub_toString : SWValue → string;
  cyan : string → string;
  brightCyan : string → string;
  parseNumber : string → option Z
}.

(** Where a visitor stands after a step of one of its loops: it has
    returned [res], or it goes on with [a]. *)
Inductive Flow (A : Type) :=
  | Return (res : RTResult)
  | Next (a : A).

Arguments Return {A} res.
Arguments Next {A} a.

Section Interpreter.
Context `{MissingClasses}.

(** ** [SWValue]: the base class ([types/value.js]) *)

Definition hasError (res : RTResult) : bool :=
  match resError res with Some _ => true | None => false end.

(** [illegalOperation(other = null)] *)
Definition illegalOperation (this : SWValue) (other : ValRef) : RTError :=
  let other := match other with Some o => o | None => this end in
  mkRTError (posStart (stamp this)) (posEnd (stamp other))
    "Illegal operation" (context (stamp this)).

(** [addedTo], [subbedBy], ..., [oredBy]: the base class answers
    [[null, this.illegalOperation(other)]]; neither function class
    overrides any of them. *)
Definition binaryMethod (op : TokenType) (this : SWValue) (other : ValRef)
    : Eval OpResult :=
  if inSource this then ret (None, Some (illegalOperation this other))
  else
    match sub_binop op this other with
    | Some r => ret r
    | None => unsupported "operation outside the integer model"
    end.

(** [notted()]: the body of the base class mentions [other], which is not a
    parameter of the method nor any variable in scope, so evaluating it
    throws a [ReferenceError]. Neither function class overrides it. *)
Definition notted (this : SWValue) : Eval OpResult :=
  if inSource this then throw (ReferenceError "other is not defined")
  else ret (sub_notted this).

(** [isTrue()]: [false] in the base class; neither function class
    overrides it. *)
Definition isTrue (this : SWValue) : bool :=
  if inSource this then false else sub_isTrue this.

(** The constructor of [SWBaseFunction]:
    [this.name = name || '<isiyotambuliwa>']. *)
Definition functionName (name : option string) : string :=
  match name with
  | None | Some EmptyString => "<isiyotambuliwa>"
  | Some n => n
  end.

(** [new SWFunction(name, bodyNode, argNames)] *)
Definition newSWFunction (name : option string) (bodyNode : Node)
    (argNames : list string) : SWValue :=
  SWFunction (functionName name) bodyNode argNames fresh.

(** [copy()]: throws in the base class; the function classes build a new
    instance with the same fields, position and context. *)
Definition copy (this : SWValue) : Eval SWValue :=
  match this with
  | SWValueBase _ => throw (Error "No copy method defined")
  | SWFunction name bodyNode argNames st =>
      ret (setContext (context st)
             (setPosition (posStart st) (posEnd st)
                (newSWFunction (Some name) bodyNode argNames)))
  | SWBuiltInFunction name st =>
      ret (setContext (context st)
             (setPosition (posStart st) (posEnd st)
                (SWBuiltInFunction name fresh)))
  | _ => ret (sub_copy this)
  end.

Definition builtinName (name : BuiltinName) : string :=
  match name with
  | andika => "andika" | soma => "soma" | somaNambari => "somaNambari"
  | futa => "futa" | niNambari => "niNambari" | niJina => "niJina"
  | niOrodha => "niOrodha" | niShughuli => "niShughuli" | idadi => "idadi"
  end.

(** [this.name] of a function value. *)
Definition nameOf (this : SWValue) : string :=
  match this with
  | SWFunction name _ _ _ => name
  | SWBuiltInFunction name _ => builtinName name
  | _ => "undefined"
  end.

(** [toString(false)]: the function classes ignore the argument. *)
Definition toString (this : SWValue) : string :=
  match this with
  | SWValueBase _ => "[object Object]"
  | SWFunction name _ _ _ => cyan ("<shughuli " +:+ name +:+ ">")
  | SWBuiltInFunction name _ =>
      brightCyan ("<shughuli asili " +:+ builtinName name +:+ ">")
  | _ => sub_toString this
  end.

(** Calling a method or reading a field of [null]. *)
Definition nullDereference {A} : Eval A :=
  throw (TypeError "Cannot read properties of null").

Definition deref (v : ValRef) : Eval SWValue :=
  match v with
  | Some x => ret x
  | None => nullDereference
  end.

(** ** [SWBaseFunction], as defined next to the interpreter *)

(** [generateNewContext()]: the parent of the new context is [this.context]
    and the parent of its symbol table is that context's symbol table. *)
Definition generateNewContext (this : SWValue) : Eval Context :=
  match context (stamp this) with
  | None => nullDereference
  | Some parentContext =>
      let* t := newSymbolTable (Some (symbolTable parentContext)) in
      ret (mkContext (nameOf this) (Some parentContext)
             (posStart (stamp this)) t)
  end.

(** [checkArgs(argNames, args)] *)
Definition checkArgs (this : SWValue) (argNames : list string)
    (args : list ValRef) : RTResult :=
  let res := newRTResult in
  if (length argNames <? length args)%nat then
    failure res
      (mkRTError (posStart (stamp this)) (posEnd (stamp this))
         (pretty (length args - length argNames)%nat
            +:+ " too many args passed into " +:+ nameOf this)
         (context (stamp this)))
  else if (length args <? length argNames)%nat then
    failure res
      (mkRTError (posStart (stamp this)) (posEnd (stamp this))
         (pretty (length argNames - length args)%nat
            +:+ " too few args passed into " +:+ nameOf this)
         (context (stamp this)))
  else success res (Some (SWNull fresh)).

(** [populateArgs(argNames, args, executionContext)]: the loop from index
    [i] on. [argNames[i]] past the end of the array is [undefined].
    [argValue.setContext] changes the argument where it stands; the store
    holds values, so the model binds the argument as it has become and
    leaves the other tables alone. That is what the code does for an
    argument that no table holds yet. An argument that is the value of an
    assignment or of a named definition is held by the table it was just
    bound in, and the code gives that binding the new context too (a field
    that no visitor reads back: [visitVarAccessNode] sets it afresh on the
    copy it makes). The properties that speak of the other tables say
    which arguments they are about. *)
Fixpoint populateArgsFrom (i : nat) (argNames : list string)
    (args : list ValRef) (executionContext : Context) : Eval unit :=
  match args with
  | [] => ret ()
  | argValue :: rest =>
      let argName := default "undefined" (argNames !! i) in
      let* argValue := deref argValue in
      let argValue := setContext (Some executionContext) argValue in
      let* _ :=
        update (set (symbolTable executionContext) argName (Some argValue)) in
      populateArgsFrom (S i) argNames rest executionContext
  end.

Definition populateArgs (argNames : list string) (args : list ValRef)
    (executionContext : Context) : Eval unit :=
  populateArgsFrom 0 argNames args executionContext.

(** [checkAndPopulateArgs(argNames, args, executionContext)] *)
Definition checkAndPopulateArgs (this : SWValue) (argNames : list string)
    (args : list ValRef) (executionContext : Context) : Eval RTResult :=
  let res := newRTResult in
  let '(_, res) := register res (checkArgs this argNames args) in
  if hasError res then ret res
  else
    let* _ := populateArgs argNames args executionContext in
    ret (success res None).

(** ** [SWBuiltInFunction] *)

(** The array stored under the built-in's own name: [this[this.name]]. *)
Definition builtinArgNames (name : BuiltinName) : list string :=
  match name with
  | andika => ["value"]
  | soma => ["message"]
  | somaNambari => ["message"]
  | futa => []
  | niNambari | niJina | niOrodha | niShughuli | idadi => ["value"]
  end.

Definition print (text : string) : Eval unit :=
  update (λ w, mkWorld (tables w) (output w ++ [Printed text]) (input w)).

(** [prompt(message)] of [prompt-sync]: shows the message and reads a line;
    [null] when the input has ended. *)
Definition prompt (message : string) : Eval (option string) :=
  λ w,
    match input w with
    | [] => (Done None,
             mkWorld (tables w) (output w ++ [Prompted message]) [])
    | line :: rest =>
        (Done (Some line),
         mkWorld (tables w) (output w ++ [Prompted message]) rest)
    end.

Definition clear : Eval unit :=
  update (λ w, mkWorld (tables w) (output w ++ [Cleared]) (input w)).

Definition execute_andika (executionContext : Context) : Eval RTResult :=
  let* value := read (get (symbolTable executionContext) "value") in
  let* value := deref value in
  let* _ := print (toString value) in
  ret (success newRTResult (Some (SWNull fresh))).

Definition execute_soma (executionContext : Context) : Eval RTResult :=
  let* message := read (get (symbolTable executionContext) "message") in
  let* message := deref message in
  let* textInput := prompt (toString message) in
  ret (success newRTResult (Some (SWString (default EmptyString textInput) fresh))).

(** [soma] of the stand-alone module [builtins/soma.js]: the prompt is the
    parameter [swali], or ["> "] when it is not bound. *)
Definition soma_method (executionContext : Context) : Eval RTResult :=
  let res := newRTResult in
  let* swali := read (get (symbolTable executionContext) "swali") in
  let swali :=
    match swali with
    | Some swali => toString swali
    | None => "> "
    end in
  let* textInput := prompt swali in
  ret (success res (Some (SWString (default EmptyString textInput) fresh))).

(** The loop of [execute_somaNambari]. It asks again while the line read is
    not a number, and leaves at the end of the input, where [prompt] gives
    [null] and [isNaN(null)] is false. The result is [numInput || 0]. *)
Fixpoint somaNambariLoop (message : string) (lines : list string)
    (out : list HostEvent) : Z * list string * list HostEvent :=
  match lines with
  | [] => (0, [], out ++ [Prompted message])
  | line :: rest =>
      match parseNumber line with
      | None =>
          somaNambariLoop message rest
            (out ++ [Prompted message;
                     Printed "Jibu yako si nambari. Jaribu tena."])
      | Some n =>
          (if decide (line = EmptyString) then 0 else n, rest,
           out ++ [Prompted message])
      end
  end.

Definition execute_somaNambari (executionContext : Context) : Eval RTResult :=
  let* message := read (get (symbolTable executionContext) "message") in
  let* message := deref message in
  let* numInput :=
    (λ w,
       let '(n, lines, out) :=
         somaNambariLoop (toString message) (input w) (output w) in
       (Done n, mkWorld (tables w) out lines)) in
  ret (success newRTResult (Some (SWNumber numInput fresh))).

Definition execute_futa (executionContext : Context) : Eval RTResult :=
  let* _ := clear in
  ret (success newRTResult (Some (SWNull fresh))).

(** The four type checks: [get('value') instanceof C], answered with the
    shared [SWBoolean.TRUE] or [SWBoolean.FALSE]. *)
Definition instanceCheck (isInstance : ValRef → bool)
    (executionContext : Context) : Eval RTResult :=
  let* value := read (get (symbolTable executionContext) "value") in
  ret (success newRTResult (Some (SWBoolean (isInstance value) fresh))).

Definition isNumber (v : ValRef) : bool :=
  match v with Some (SWNumber _ _) => true | _ => false end.
Definition isString (v : ValRef) : bool :=
  match v with Some (SWString _ _) => true | _ => false end.
Definition isList (v : ValRef) : bool :=
  match v with Some (SWList _ _) => true | _ => false end.
Definition isBaseFunction (v : ValRef) : bool :=
  match v with Some f => isFunction f | None => false end.

Definition execute_niNambari := instanceCheck isNumber.
Definition execute_niJina := instanceCheck isString.
Definition execute_niOrodha := instanceCheck isList.
Definition execute_niShughuli := instanceCheck isBaseFunction.

(** [execute_idadi]: the length of a String or of a List, an error for
    anything else. Reading [value.posStart] of [null] throws. *)
Definition execute_idadi (executionContext : Context) : Eval RTResult :=
  let res := newRTResult in
  let* value := read (get (symbolTable executionContext) "value") in
  match value with
  | Some (SWString s _) =>
      ret (success res (Some (SWNumber (Z.of_nat (String.length s)) fresh)))
  | Some (SWList elements _) =>
      ret (success res (Some (SWNumber (Z.of_nat (length elements)) fresh)))
  | Some other =>
      ret (failure res
             (mkRTError (posStart (stamp other)) (posEnd (stamp other))
                "Cannot find length of non-iterable value"
                (Some executionContext)))
  | None => nullDereference
  end.

(** [this['execute_' + this.name]] *)
Definition builtinMethod (name : BuiltinName) : Context → Eval RTResult :=
  match name with
  | andika => execute_andika
  | soma => execute_soma
  | somaNambari => execute_somaNambari
  | futa => execute_futa
  | niNambari => execute_niNambari
  | niJina => execute_niJina
  | niOrodha => execute_niOrodha
  | niShughuli => execute_niShughuli
  | idadi => execute_idadi
  end.

(** [SWBuiltInFunction.execute(args)], from the arity check on: what is
    run once [executionContext] has been generated. *)
Definition executeBuiltInIn (this : SWValue) (name : BuiltinName)
    (args : list ValRef) (executionContext : Context) : Eval RTResult :=
  let res := newRTResult in
  let method := builtinMethod name in
  let argNames := builtinArgNames name in
  let* r := checkAndPopulateArgs this argNames args executionContext in
  let '(_, res) := register res r in
  if hasError res then ret res
  else
    let* r := method executionContext in
    let '(returnValue, res) := register res r in
    if hasError res then ret res
    else ret (success res returnValue).

(** [SWBuiltInFunction.execute(args)] *)
Definition executeBuiltIn (this : SWValue) (name : BuiltinName)
    (args : list ValRef) : Eval RTResult :=
  let* executionContext := generateNewContext this in
  executeBuiltInIn this name args executionContext.

(** ** [Interpreter]: the visitors *)

(** [v.value] where the source computes with it as a number. *)
Definition numberValue (v : ValRef) : Eval Z :=
  match v with
  | None => nullDereference
  | Some (SWNumber n _) => ret n
  | Some _ => unsupported "loop bound that is not a Number"
  end.

Section Visitors.

(** [this.visit], [this.maxCallStackSize] and the [execute] method of the
    value being called. *)
Variable visit : Node → Context → Eval RTResult.
Variable maxCallStackSize : Z.
Variable execute : SWValue → list ValRef → Eval RTResult.

Definition visitNumberNode (value : Z) (ps pe : Position) (context : Context)
    : Eval RTResult :=
  let res := newRTResult in
  ret (success res
         (Some (setPosition (Some ps) (Some pe)
                  (setContext (Some context) (SWNumber value fresh))))).

Definition visitStringNode (value : string) (ps pe : Position)
    (context : Context) : Eval RTResult :=
  let res := newRTResult in
  ret (success res
         (Some (setPosition (Some ps) (Some pe)
                  (setContext (Some context) (SWString value fresh))))).

(** The [for ... of] loop shared by [visitListNode] and [visitCallNode]:
    every node is visited and its value pushed; the first error returns. *)
Fixpoint visitEach (nodes : list Node) (context : Context) (res : RTResult)
    (elements : list ValRef) : Eval (Flow (RTResult * list ValRef)) :=
  match nodes with
  | [] => ret (Next (res, elements))
  | elementNode :: rest =>
      let* r := visit elementNode context in
      let '(v, res) := register res r in
      let elements := elements ++ [v] in
      if hasError res then ret (Return res)
      else visitEach rest context res elements
  end.

Definition visitListNode (elementNodes : list Node) (ps pe : Position)
    (context : Context) : Eval RTResult :=
  let res := newRTResult in
  let* flow := visitEach elementNodes context res [] in
  match flow with
  | Return res => ret res
  | Next (res, elements) =>
      ret (success res
             (Some (setPosition (Some ps) (Some pe)
                      (setContext (Some context) (SWList elements fresh)))))
  end.

Definition visitVarAccessNode (varName : string) (ps pe : Position)
    (context : Context) : Eval RTResult :=
  let res := newRTResult in
  let* value := read (get (symbolTable context) varName) in
  match value with
  | None =>
      ret (failure res
             (mkRTError (Some ps) (Some pe)
                ("'" +:+ varName +:+ "' is not defined") (Some context)))
  | Some value =>
      let* value := copy value in
      ret (success res
             (Some (setContext (Some context)
                      (setPosition (Some ps) (Some pe) value))))
  end.

Definition visitVarAssignNode (varName : string) (valueNode : Node)
    (context : Context) : Eval RTResult :=
  let res := newRTResult in
  let* r := visit valueNode context in
  let '(value, res) := register res r in
  if hasError res then ret res
  else
    let* _ := update (set (symbolTable context) varName value) in
    ret (success res value).

(** The chain of comparisons of [opTok.type] in [visitBinOpNode]; when no
    branch matches, [result] stays the [new SWValue()] it was initialised
    with. *)
Definition binaryDispatch (opTok : TokenType) (leftValue rightValue : ValRef)
    : Eval OpResult :=
  match opTok with
  | NOT => ret (Some (SWValueBase fresh), None)
  | _ =>
      let* leftValue := deref leftValue in
      binaryMethod opTok leftValue rightValue
  end.

Definition visitBinOpNode (leftNode : Node) (opTok : TokenType)
    (rightNode : Node) (ps pe : Position) (context : Context)
    : Eval RTResult :=
  let res := newRTResult in
  let* r := visit leftNode context in
  let '(leftValue, res) := register res r in
  if hasError res then ret res
  else
    let* r := visit rightNode context in
    let '(rightValue, res) := register res r in
    if hasError res then ret res
    else
      let* '(result, error) := binaryDispatch opTok leftValue rightValue in
      match error with
      | Some error => ret (failure res error)
      | None =>
          let* result := deref result in
          ret (success res (Some (setPosition (Some ps) (Some pe) result)))
      end.

Definition unaryDispatch (opTok : TokenType) (number : ValRef)
    : Eval OpResult :=
  match opTok with
  | MINUS =>
      let* number := deref number in
      binaryMethod MUL number (Some (SWNumber (-1) fresh))
  | NOT =>
      let* number := deref number in
      notted number
  | _ => ret (number, None)
  end.

Definition visitUnaryOpNode (opTok : TokenType) (node : Node)
    (ps pe : Position) (context : Context) : Eval RTResult :=
  let res := newRTResult in
  let* r := visit node context in
  let '(number, res) := register res r in
  if hasError res then ret res
  else
    let* '(number, error) := unaryDispatch opTok number in
    match error with
    | Some error => ret (failure res error)
    | None =>
        let* number := deref number in
        ret (success res (Some (setPosition (Some ps) (Some pe) number)))
    end.

(** The loop over [node.cases]: [Next] when no condition was true. *)
Fixpoint visitCases (cases : list (Node * Node)) (context : Context)
    (res : RTResult) : Eval (Flow RTResult) :=
  match cases with
  | [] => ret (Next res)
  | (condition, expr) :: rest =>
      let* r := visit condition context in
      let '(conditionValue, res) := register res r in
      if hasError res then ret (Return res)
      else
        let* conditionValue := deref conditionValue in
        if isTrue conditionValue then
          let* r := visit expr context in
          let '(exprValue, res) := register res r in
          if hasError res then ret (Return res)
          else ret (Return (success res exprValue))
        else visitCases rest context res
  end.

Definition visitIfNode (cases : list (Node * Node)) (elseCase : option Node)
    (context : Context) : Eval RTResult :=
  let res := newRTResult in
  let* flow := visitCases cases context res in
  match flow with
  | Return res => ret res
  | Next res =>
      match elseCase with
      | Some elseCase =>
          let* r := visit elseCase context in
          let '(elseValue, res) := register res r in
          if hasError res then ret res
          else ret (success res elseValue)
      | None => ret (success res None)
      end
  end.

(** [Number.isSafeInteger]: the integers that a JavaScript number holds
    exactly. Where the operands and the result are among them, [+], [<]
    and [>] on numbers are those of the integers; outside, [i += step]
    rounds. *)
Definition maxSafeInteger : Z := 9007199254740991.

Definition isSafeInteger (z : Z) : bool :=
  (- maxSafeInteger <=? z) && (z <=? maxSafeInteger).

(** The counter, the step and the end of a [kwa] loop are all numbers that
    are held exactly. *)
Definition heldExactly (step endValue i : Z) : bool :=
  isSafeInteger i && isSafeInteger step && isSafeInteger endValue.

(** The closure [condition] of [visitForNode], chosen by the sign of the
    step. *)
Definition forCondition (step endValue i : Z) : bool :=
  if 0 <=? step then i <? endValue else endValue <? i.

Definition maxCallStackError (ps pe : Position) (context : Context)
    : RTError :=
  mkRTError (Some ps) (Some pe) "Max call stack size exceeded" (Some context).

(** The [while (condition())] loop of [visitForNode]. [budget] bounds the
    number of iterations the model follows. The model follows the loop
    while its numbers are held exactly, and is [Unsupported] from the
    point on where the counter, after [i += stepValue.value], is not. *)
Fixpoint forLoop (budget : nat) (varName : string) (bodyNode : Node)
    (ps pe : Position) (context : Context) (step endValue : Z)
    (i calls : Z) (res : RTResult) (elements : list ValRef)
    : Eval RTResult :=
  if negb (heldExactly step endValue i) then
    unsupported "loop counter outside the safe integers"
  else if forCondition step endValue i then
    match budget with
    | O => outOfFuel
    | S budget' =>
        let* _ := update (set (symbolTable context) varName
                      (Some (SWNumber i fresh))) in
        let i := i + step in
        let* r := visit bodyNode context in
        let '(v, res) := register res r in
        let elements := elements ++ [v] in
        if hasError res then ret res
        else
          let calls := calls + 1 in
          if calls =? maxCallStackSize then
            ret (failure res (maxCallStackError ps pe context))
          else
            forLoop budget' varName bodyNode ps pe context step endValue
              i calls res elements
    end
  else
    ret (success res
           (Some (setPosition (Some ps) (Some pe)
                    (setContext (Some context) (SWList elements fresh))))).

(** [visitForNode]. The result of visiting the step node is registered but
    [res.error] is not looked at before going on. *)
Definition visitForNode (budget : nat) (varName : string)
    (startValueNode endValueNode : Node) (stepValueNode : option Node)
    (bodyNode : Node) (ps pe : Position) (context : Context)
    : Eval RTResult :=
  let res := newRTResult in
  let elements := [] in
  let stepValue := Some (SWNumber 1 fresh) in
  let* r := visit startValueNode context in
  let '(startValue, res) := register res r in
  if hasError res then ret res
  else
    let* r := visit endValueNode context in
    let '(endValue, res) := register res r in
    if hasError res then ret res
    else
      let* '(stepValue, res) :=
        match stepValueNode with
        | Some stepValueNode =>
            let* r := visit stepValueNode context in
            ret (register res r)
        | None => ret (stepValue, res)
        end in
      let* i := numberValue startValue in
      let* step := numberValue stepValue in
      let* endValue := numberValue endValue in
      let calls := 0 in
      forLoop budget varName bodyNode ps pe context step endValue
        i calls res elements.

(** The [while (true)] loop of [visitWhileNode]. *)
Fixpoint whileLoop (budget : nat) (conditionNode bodyNode : Node)
    (ps pe : Position) (context : Context) (calls : Z) (res : RTResult)
    (elements : list ValRef) : Eval RTResult :=
  match budget with
  | O => outOfFuel
  | S budget' =>
      let* r := visit conditionNode context in
      let '(condition, res) := register res r in
      if hasError res then ret res
      else
        let* condition := deref condition in
        if negb (isTrue condition) then
          ret (success res
                 (Some (setPosition (Some ps) (Some pe)
                          (setContext (Some context)
                             (SWList elements fresh)))))
        else
          let* r := visit bodyNode context in
          let '(v, res) := register res r in
          let elements := elements ++ [v] in
          if hasError res then ret res
          else
            let calls := calls + 1 in
            if calls =? maxCallStackSize then
              ret (failure res (maxCallStackError ps pe context))
            else
              whileLoop budget' conditionNode bodyNode ps pe context
                calls res elements
  end.

Definition visitWhileNode (budget : nat) (conditionNode bodyNode : Node)
    (ps pe : Position) (context : Context) : Eval RTResult :=
  let res := newRTResult in
  let elements := [] in
  let calls := 0 in
  whileLoop budget conditionNode bodyNode ps pe context calls res elements.

Definition visitFuncDefNode (varName : option string)
    (argNames : list string) (bodyNode : Node) (ps pe : Position)
    (context : Context) : Eval RTResult :=
  let res := newRTResult in
  let funcName := varName in
  let funcValue :=
    setPosition (Some ps) (Some pe)
      (setContext (Some context) (newSWFunction funcName bodyNode argNames)) in
  let* _ := match varName with
      | Some funcName =>
          update (set (symbolTable context) funcName (Some funcValue))
      | None => ret ()
      end in
  ret (success res (Some funcValue)).

(** The end of [visitCallNode], from the registration of what [execute]
    returned. *)
Definition returnFromCall (ps pe : Position) (context : Context)
    (res r : RTResult) : Eval RTResult :=
  let '(returnValue, res) := register res r in
  if hasError res then ret res
  else
    let* returnValue :=
      match returnValue with
      | Some returnValue =>
          let* returnValue := copy returnValue in
          ret (Some (setContext (Some context)
                       (setPosition (Some ps) (Some pe) returnValue)))
      | None => ret None
      end in
    ret (success res returnValue).

Definition visitCallNode (nodeToCall : Node) (argNodes : list Node)
    (ps pe : Position) (context : Context) : Eval RTResult :=
  let res := newRTResult in
  let args := [] in
  let* r := visit nodeToCall context in
  let '(valueToCall, res) := register res r in
  if hasError res then ret res
  else
    let* valueToCall := deref valueToCall in
    let* valueToCall := copy valueToCall in
    let valueToCall := setPosition (Some ps) (Some pe) valueToCall in
    let* flow := visitEach argNodes context res args in
    match flow with
    | Return res => ret res
    | Next (res, args) =>
        let* r := execute valueToCall args in
        returnFromCall ps pe context res r
    end.

(** [noVisitMethod] *)
Definition noVisitMethod (className : string) : Eval RTResult :=
  throw (Error ("No visit" +:+ className +:+ " method defined")).

End Visitors.

(** ** [SWFunction] and the recursion *)

(** The value the constructor of [Interpreter] gives to
    [maxCallStackSize]. *)
Definition defaultMaxCallStackSize : Z := 10000.

(** [SWFunction.execute(args)], from the arity check on. [INT] is a
    [new Interpreter()]: its [maxCallStackSize] is the default, and
    [visitWith] is its [visit]. *)
Definition executeFunctionIn
    (visitWith : Z → Node → Context → Eval RTResult) (this : SWValue)
    (bodyNode : Node) (argNames : list string) (args : list ValRef)
    (executionContext : Context) : Eval RTResult :=
  let res := newRTResult in
  let INT := visitWith defaultMaxCallStackSize in
  let* r := checkAndPopulateArgs this argNames args executionContext in
  let '(_, res) := register res r in
  if hasError res then ret res
  else
    let* r := INT bodyNode executionContext in
    let '(value, res) := register res r in
    if hasError res then ret res
    else ret (success res value).

(** [SWFunction.execute(args)] *)
Definition executeFunction
    (visitWith : Z → Node → Context → Eval RTResult) (this : SWValue)
    (bodyNode : Node) (argNames : list string) (args : list ValRef)
    : Eval RTResult :=
  let* executionContext := generateNewContext this in
  executeFunctionIn visitWith this bodyNode argNames args executionContext.

(** What [execute] runs in the execution context it has generated. *)
Definition executeIn (visitWith : Z → Node → Context → Eval RTResult)
    (this : SWValue) (args : list ValRef) (executionContext : Context)
    : Eval RTResult :=
  match this with
  | SWFunction _ bodyNode argNames _ =>
      executeFunctionIn visitWith this bodyNode argNames args executionContext
  | SWBuiltInFunction name _ =>
      executeBuiltInIn this name args executionContext
  | _ => ret (failure newRTResult (illegalOperation this None))
  end.

(** [execute(args)]: the two function classes override it; everywhere else
    it is the base class's [failure(this.illegalOperation())]. *)
Definition execute (visitWith : Z → Node → Context → Eval RTResult)
    (this : SWValue) (args : list ValRef) : Eval RTResult :=
  match this with
  | SWFunction _ bodyNode argNames _ =>
      executeFunction visitWith this bodyNode argNames args
  | SWBuiltInFunction name _ => executeBuiltIn this name args
  | _ => ret (failure newRTResult (illegalOperation this None))
  end.

(** [Interpreter.visit(node, context)] of an interpreter whose
    [maxCallStackSize] is the second argument. [fuel] bounds the depth of
    the recursion and the iterations of each loop. *)
Fixpoint visit (fuel : nat) (maxCallStackSize : Z) (node : Node)
    (context : Context) : Eval RTResult :=
  match fuel with
  | O => outOfFuel
  | S fuel' =>
      let self := visit fuel' maxCallStackSize in
      match node with
      | NumberNode value ps pe => visitNumberNode value ps pe context
      | StringNode value ps pe => visitStringNode value ps pe context
      | ListNode elementNodes ps pe =>
          visitListNode self elementNodes ps pe context
      | VarAccessNode varName ps pe =>
          visitVarAccessNode varName ps pe context
      | VarAssignNode varName valueNode ps pe =>
          visitVarAssignNode self varName valueNode context
      | BinOpNode leftNode opTok rightNode ps pe =>
          visitBinOpNode self leftNode opTok rightNode ps pe context
      | UnaryOpNode opTok node ps pe =>
          visitUnaryOpNode self opTok node ps pe context
      | IfNode cases elseCase ps pe =>
          visitIfNode self cases elseCase context
      | ForNode varName startValueNode endValueNode stepValueNode bodyNode
          ps pe =>
          visitForNode self maxCallStackSize fuel' varName startValueNode
            endValueNode stepValueNode bodyNode ps pe context
      | WhileNode conditionNode bodyNode ps pe =>
          visitWhileNode self maxCallStackSize fuel' conditionNode bodyNode
            ps pe context
      | FuncDefNode varName argNames bodyNode ps pe =>
          visitFuncDefNode varName argNames bodyNode ps pe context
      | CallNode nodeToCall argNodes ps pe =>
          visitCallNode self (execute (visit fuel')) nodeToCall argNodes
            ps pe context
      | OtherNode className => noVisitMethod className
      end
  end.

End Interpreter.

(** ** The stand-alone function base class ([types/base-function.js])

    This class extends [SWObject], so a function value has a symbol table
    of its own, [this.symbolTable]; it is the argument [own] below. *)

Module BaseFunction.

(** [generateNewContext()]: without a [this.context] the new table has no
    parent. *)
Definition generateNewContext (this : SWValue) : Eval Context :=
  let* t := newSymbolTable (symbolTable <$> context (stamp this)) in
  ret (mkContext (nameOf this) (context (stamp this))
         (posStart (stamp this)) t).

(** The first loop of [populateArgs], over [argNames] from index [i] on:
    a parameter that has an argument (or the null value) is bound in both
    tables, and a given argument is pushed on [allArgs]. [nullValue] is
    [null], or the one object [SWNull.NULL] as it stands: binding a
    parameter to it sets its context, for every holder of the object, so
    the loop hands back what it has become. *)
Fixpoint bindNamed (i : nat) (argNames : list string) (args : list ValRef)
    (executionContext : Context) (own : TableId) (nullValue : ValRef)
    (allArgs : list ValRef) : Eval (list ValRef * ValRef) :=
  match argNames with
  | [] => ret (allArgs, nullValue)
  | argName :: rest =>
      let given := (i <? length args)%nat in
      let argValue := if given then mjoin (args !! i) else nullValue in
      match argValue with
      | Some argValue =>
          let argValue := setContext (Some executionContext) argValue in
          let nullValue := if given then nullValue else Some argValue in
          let* _ :=
            update (set (symbolTable executionContext) argName
                      (Some argValue)) in
          let* _ := update (set own argName (Some argValue)) in
          let allArgs :=
            match mjoin (args !! i) with
            | Some _ => allArgs ++ [Some argValue]
            | None => allArgs
            end in
          bindNamed (S i) rest args executionContext own nullValue allArgs
      | None =>
          bindNamed (S i) rest args executionContext own nullValue allArgs
      end
  end.

(** The second loop: [for (let i = allArgs.length; i < args.length; i++)].
    [n] bounds the iterations; [length args] is always enough. *)
Fixpoint pushGiven (n i : nat) (args allArgs : list ValRef) : list ValRef :=
  match n with
  | O => allArgs
  | S n' =>
      if (i <? length args)%nat then
        match mjoin (args !! i) with
        | Some argValue =>
            pushGiven n' (S i) args (allArgs ++ [Some argValue])
        | None => pushGiven n' (S i) args allArgs
        end
      else allArgs
  end.

(** [populateArgs(argNames, args, executionContext, nullType = false)].
    [NULL] is the shared object [SWNull.NULL] as it stands when the method
    is called. The method returns that same object, so the value of the
    result is what the object has become. As in the class next to the
    interpreter, an argument is re-contexted where it stands; the tables
    other than the two written to, and the shared Null, are followed for
    arguments that no table holds yet and that are not the shared Null
    itself. *)
Definition populateArgs (own : TableId) (argNames : option (list string))
    (args : list ValRef) (executionContext : Context) (nullType : bool)
    (NULL : SWValue) : Eval RTResult :=
  let res := newRTResult in
  let nullValue := if nullType then Some NULL else None in
  let allArgs := [] in
  let argNames := default [] argNames in
  let* '(allArgs, nullValue) :=
    bindNamed 0 argNames args executionContext own nullValue allArgs in
  let NULL := if nullType then default NULL nullValue else NULL in
  let allArgs := pushGiven (length args) (length allArgs) args allArgs in
  let __hoja := SWList allArgs fresh in
  let* _ :=
    update (set (symbolTable executionContext) "__hoja" (Some __hoja)) in
  let* _ := update (set own "__hoja" (Some __hoja)) in
  ret (success res (Some NULL)).

End BaseFunction.

(** ** A reading of the classes that are not embedded *)

Module SpecModel.

(** Modelled from the spec: the structural equality behind [==] and [!=],
    lists element by element; positions and contexts are not compared. *)
Fixpoint sameValue (a b : SWValue) {struct a} : bool :=
  match a, b with
  | SWNumber x _, SWNumber y _ => x =? y
  | SWString x _, SWString y _ => bool_decide (x = y)
  | SWBoolean x _, SWBoolean y _ => bool_decide (x = y)
  | SWNull _, SWNull _ => true
  | SWList xs _, SWList ys _ =>
      (fix sameElements (xs ys : list ValRef) {struct xs} : bool :=
         match xs, ys with
         | [], [] => true
         | Some x :: xs', Some y :: ys' =>
             sameValue x y && sameElements xs' ys'
         | None :: xs', None :: ys' => sameElements xs' ys'
         | _, _ => false
         end) xs ys
  | _, _ => false
  end.

Fixpoint repeatString (n : nat) (s : string) : string :=
  match n with
  | O => EmptyString
  | S n' => s +:+ repeatString n' s
  end.

(** Modelled from the spec: the truthiness column of the table of
    variants, for the classes that are not embedded. *)
Definition truthy (v : SWValue) : bool :=
  match v with
  | SWNumber n _ => negb (n =? 0)
  | SWString s _ => negb (bool_decide (s = EmptyString))
  | SWBoolean b _ => b
  | SWList l _ => negb (bool_decide (l = []))
  | _ => false
  end.

Definition illegal (this : SWValue) (other : ValRef) : OpResult :=
  let o := default this other in
  (None,
   Some (mkRTError (posStart (stamp this)) (posEnd (stamp o))
           "Illegal operation" (context (stamp this)))).

Definition produced (this : SWValue) (v : SWValue) : option OpResult :=
  Some (Some (setContext (context (stamp this)) v), None).

Definition numberOp (op : TokenType) (this : SWValue) (l r : Z)
    (other : SWValue) : option OpResult :=
  match op with
  | PLUS => produced this (SWNumber (l + r) fresh)
  | MINUS => produced this (SWNumber (l - r) fresh)
  | MUL => produced this (SWNumber (l * r) fresh)
  | DIV =>
      if r =? 0 then
        Some (None,
              Some (mkRTError (posStart (stamp other)) (posEnd (stamp other))
                      "Division by zero" (context (stamp this))))
      else if l mod r =? 0 then produced this (SWNumber (l / r) fresh)
      else None
  | POW => if 0 <=? r then produced this (SWNumber (l ^ r) fresh) else None
  | EE => produced this (SWBoolean (l =? r) fresh)
  | NE => produced this (SWBoolean (negb (l =? r)) fresh)
  | LT => produced this (SWBoolean (l <? r) fresh)
  | GT => produced this (SWBoolean (r <? l) fresh)
  | LTE => produced this (SWBoolean (l <=? r) fresh)
  | GTE => produced this (SWBoolean (r <=? l) fresh)
  | _ => Some (illegal this (Some other))
  end.

(** Modelled from the spec: the operation table of section 4.1 for the
    classes [SWNumber], [SWString], [SWBoolean], [SWList] and [SWNull],
    which are not among the embedded files. A quotient or a power that is
    not an integer has no result here. *)
Definition binop (op : TokenType) (this : SWValue) (other : ValRef)
    : option OpResult :=
  match op, other with
  | AND, Some o =>
      produced this (SWBoolean (truthy this && truthy o) fresh)
  | OR, Some o =>
      produced this (SWBoolean (truthy this || truthy o) fresh)
  | _, Some o =>
      match this, o with
      | SWNumber l _, SWNumber r _ => numberOp op this l r o
      | SWString l _, SWString r _ =>
          match op with
          | PLUS => produced this (SWString (l +:+ r) fresh)
          | EE => produced this (SWBoolean (sameValue this o) fresh)
          | NE => produced this (SWBoolean (negb (sameValue this o)) fresh)
          | _ => Some (illegal this other)
          end
      | SWString l _, SWNumber n _ =>
          match op with
          | MUL =>
              if n <? 0 then Some (illegal this other)
              else produced this (SWString (repeatString (Z.to_nat n) l) fresh)
          | EE => produced this (SWBoolean false fresh)
          | NE => produced this (SWBoolean true fresh)
          | _ => Some (illegal this other)
          end
      | SWList l _, _ =>
          match op, o with
          | PLUS, _ => produced this (SWList (l ++ [other]) fresh)
          | MINUS, SWNumber n _ =>
              if (0 <=? n) && (n <? Z.of_nat (length l)) then
                produced this (SWList (delete (Z.to_nat n) l) fresh)
              else Some (illegal this other)
          | MUL, SWList r _ => produced this (SWList (l ++ r) fresh)
          | DIV, SWNumber n _ =>
              if (0 <=? n) && (n <? Z.of_nat (length l)) then
                Some (default None (l !! Z.to_nat n), None)
              else Some (illegal this other)
          | EE, _ => produced this (SWBoolean (sameValue this o) fresh)
          | NE, _ => produced this (SWBoolean (negb (sameValue this o)) fresh)
          | _, _ => Some (illegal this other)
          end
      | _, _ =>
          match op with
          | EE => produced this (SWBoolean (sameValue this o) fresh)
          | NE => produced this (SWBoolean (negb (sameValue this o)) fresh)
          | _ => Some (illegal this other)
          end
      end
  | _, None =>
      match op, this with
      | PLUS, SWList l _ => produced this (SWList (l ++ [None]) fresh)
      | _, _ => Some (illegal this other)
      end
  end.

(** Modelled from the spec: unary [!] of the classes that are not embedded,
    the [Boolean] of the negated truthiness. *)
Definition negation (this : SWValue) : OpResult :=
  (Some (setContext (context (stamp this))
           (SWBoolean (negb (truthy this)) fresh)), None).

Definition showBoolean (b : bool) : string :=
  if b then "kweli" else "uwongo".

(** Modelled from the spec: the unformatted text of a value that [andika]
    writes. Elements of a list are written one after the other, separated
    by commas. *)
Fixpoint show (v : SWValue) : string :=
  match v with
  | SWNumber n _ => pretty n
  | SWString s _ => s
  | SWBoolean b _ => showBoolean b
  | SWNull _ => "tupu"
  | SWList l _ =>
      "[" +:+
      (fix showElements (l : list ValRef) : string :=
         match l with
         | [] => EmptyString
         | [Some x] => show x
         | Some x :: rest => show x +:+ ", " +:+ showElements rest
         | None :: rest => showElements rest
         end) l +:+ "]"
  | _ => EmptyString
  end.

Definition digitValue (c : ascii) : option Z :=
  let n := Z.of_N (N_of_ascii c) in
  if (48 <=? n) && (n <=? 57) then Some (n - 48) else None.

Fixpoint digits (acc : Z) (s : string) : option Z :=
  match s with
  | EmptyString => Some acc
  | String c rest =>
      match digitValue c with
      | Some d => digits (10 * acc + d) rest
      | None => None
      end
  end.

(** Modelled from the spec: the answers that [somaNambari] takes as a
    number, as far as they are integers: the empty line, and a run of
    digits with an optional minus sign. *)
Definition readInteger (s : string) : option Z :=
  match s with
  | EmptyString => Some 0
  | String "-" (String c rest) => Z.opp <$> digits 0 (String c rest)
  | _ => digits 0 s
  end.

(** Modelled from the spec: the classes that are not embedded, put
    together. [copy] keeps the payload and the stamp. The colouring
    functions are taken with colours switched off. *)
#[export] Instance classes : MissingClasses := {|
  sub_isTrue := truthy;
  sub_notted := negation;
  sub_copy := λ v, v;
  sub_binop := binop;
  sub_toString := show;
  cyan := λ s, s;
  brightCyan := λ s, s;
  parseNumber := readInteger
|}.

(** Modelled from the spec: the root symbol table, filled with the
    built-ins and the constants [kweli], [uwongo] and [tupu] before any
    program runs. The code that fills it is not among the embedded
    files. *)
Definition globalSymbols : gmap string ValRef :=
  list_to_map
    [("andika", Some (SWBuiltInFunction andika fresh));
     ("soma", Some (SWBuiltInFunction soma fresh));
     ("somaNambari", Some (SWBuiltInFunction somaNambari fresh));
     ("futa", Some (SWBuiltInFunction futa fresh));
     ("niNambari", Some (SWBuiltInFunction niNambari fresh));
     ("niJina", Some (SWBuiltInFunction niJina fresh));
     ("niOrodha", Some (SWBuiltInFunction niOrodha fresh));
     ("niShughuli", Some (SWBuiltInFunction niShughuli fresh));
     ("idadi", Some (SWBuiltInFunction idadi fresh));
     ("kweli", Some (SWBoolean true fresh));
     ("uwongo", Some (SWBoolean false fresh));
     ("tupu", Some (SWNull fresh))].

Definition globalContext : Context := mkContext "<program>" None None 0%nat.

Definition initialWorld (lines : list string) : World :=
  mkWorld [mkSymbolTable globalSymbols None] [] lines.

End SpecModel.

(** ** Vocabulary of the properties *)

(** The declared parameter names of a function value. *)
Definition paramNames (this : SWValue) : list string :=
  match this with
  | SWFunction _ _ argNames _ => argNames
  | SWBuiltInFunction name _ => builtinArgNames name
  | _ => []
  end.

(** The store after [new SymbolTable(parent)] with the bindings [bound]
    made in the new table. *)
Definition withNewTable (bound : gmap string ValRef) (p : option TableId)
    (w : World) : World :=
  mkWorld (tables w ++ [mkSymbolTable bound p]) (output w) (input w).

(** The bindings that [populateArgsFrom] adds to [bound] for the
    arguments [vs], none of them null. *)
Fixpoint boundFrom (i : nat) (argNames : list string) (vs : list SWValue)
    (executionContext : Context) (bound : gmap string ValRef)
    : gmap string ValRef :=
  match vs with
  | [] => bound
  | v :: rest =>
      boundFrom (S i) argNames rest executionContext
        (<[default "undefined" (argNames !! i) :=
             Some (setContext (Some executionContext) v)]> bound)
  end.

(** What a function value runs once its arguments are bound: the body,
    visited by a new interpreter, or the host handler. *)
Definition bodyOrHandler `{MissingClasses}
    (visitWith : Z → Node → Context → Eval RTResult) (this : SWValue)
    (executionContext : Context) : Eval RTResult :=
  match this with
  | SWFunction _ bodyNode _ _ =>
      visitWith defaultMaxCallStackSize bodyNode executionContext
  | SWBuiltInFunction name _ => builtinMethod name executionContext
  | _ => ret newRTResult
  end.

(** How both [execute] methods end: the result of the body or of the
    handler is registered and handed back. *)
Definition handBack (r : RTResult) : Eval RTResult :=
  let res := newRTResult in
  let '(value, res) := register res r in
  if hasError res then ret res else ret (success res value).

(** The function value that a variable access or a call site works with:
    a copy of the stored function [f], stamped with the position and the
    context of the place where it is used. *)
Definition restamped (f : SWValue) (ps pe : Position) (c : Context)
    : SWValue :=
  match f with
  | SWFunction name bodyNode argNames _ =>
      SWFunction (functionName (Some name)) bodyNode argNames
        (mkStamp (Some ps) (Some pe) (Some c))
  | SWBuiltInFunction name _ =>
      SWBuiltInFunction name (mkStamp (Some ps) (Some pe) (Some c))
  | _ => f
  end.

Section LoopVocabulary.
Context `{MissingClasses}.
Variable visit : Node → Context → Eval RTResult.

(** A visit that succeeds: its value and the store it leaves. *)
Definition succeeds (node : Node) (c : Context) (w : World)
    : option (ValRef * World) :=
  match visit node c w with
  | (Done r, w') =>
      match resError r with
      | None => Some (resValue r, w')
      | Some _ => None
      end
  | _ => None
  end.

(** A visit that succeeds with a Number. *)
Definition givesNumber (node : Node) (c : Context) (w : World)
    : option (Z * World) :=
  match succeeds node c w with
  | Some (Some (SWNumber n _), w') => Some (n, w')
  | _ => None
  end.

(** One full turn of a [wakati] loop: the condition is visited and is
    truthy, then the body is visited, both without error. *)
Definition whileIteration (conditionNode bodyNode : Node) (c : Context)
    (w : World) : option (ValRef * World) :=
  match succeeds conditionNode c w with
  | Some (Some condition, w1) =>
      if isTrue condition then succeeds bodyNode c w1 else None
  | _ => None
  end.

(** [n] full turns in a row, with the values of the body and the final
    store. *)
Fixpoint whileIterations (n : nat) (conditionNode bodyNode : Node)
    (c : Context) (w : World) : option (list ValRef * World) :=
  match n with
  | O => Some ([], w)
  | S n' =>
      match whileIteration conditionNode bodyNode c w with
      | Some (v, w1) =>
          match whileIterations n' conditionNode bodyNode c w1 with
          | Some (vs, w2) => Some (v :: vs, w2)
          | None => None
          end
      | None => None
      end
  end.

(** The start, the end and the step of a [kwa] loop, all Numbers; the step
    is 1 when the loop has no step expression. *)
Definition forBounds (startValueNode endValueNode : Node)
    (stepValueNode : option Node) (c : Context) (w : World)
    : option (Z * Z * Z * World) :=
  match givesNumber startValueNode c w with
  | Some (start, w1) =>
      match givesNumber endValueNode c w1 with
      | Some (endValue, w2) =>
          match stepValueNode with
          | Some stepValueNode =>
              match givesNumber stepValueNode c w2 with
              | Some (step, w3) => Some (start, endValue, step, w3)
              | None => None
              end
          | None => Some (start, endValue, 1, w2)
          end
      | None => None
      end
  | None => None
  end.

(** [n] full turns in a row of a [kwa] loop that stands at [i]: each time
    the numbers of the loop are held exactly and the condition holds, the
    variable is bound and the body is visited without error. *)
Fixpoint forIterations (n : nat) (varName : string) (bodyNode : Node)
    (c : Context) (step endValue i : Z) (w : World)
    : option (list ValRef * World) :=
  match n with
  | O => Some ([], w)
  | S n' =>
      if heldExactly step endValue i && forCondition step endValue i then
        match
          succeeds bodyNode c
            (set (symbolTable c) varName (Some (SWNumber i fresh)) w)
        with
        | Some (v, w1) =>
            match
              forIterations n' varName bodyNode c step endValue (i + step) w1
            with
            | Some (vs, w2) => Some (v :: vs, w2)
            | None => None
            end
        | None => None
        end
      else None
  end.

End LoopVocabulary.

(** ** Programs used as examples *)

Module Examples.
Import SpecModel.

Definition at_column (n : nat) : Position := mkPosition "<stdin>" 0 n n.

(** [shughuli gen(n) { shughuli add(x) { x + n } }; gen(10)(5)] *)
Definition addBody : Node :=
  BinOpNode (VarAccessNode "x" (at_column 27) (at_column 28)) PLUS
    (VarAccessNode "n" (at_column 31) (at_column 32))
    (at_column 27) (at_column 32).

Definition closureProgram : Node :=
  ListNode
    [FuncDefNode (Some "gen") ["n"]
       (FuncDefNode (Some "add") ["x"] addBody (at_column 18) (at_column 34))
       (at_column 0) (at_column 36);
     CallNode
       (CallNode (VarAccessNode "gen" (at_column 38) (at_column 41))
          [NumberNode 10 (at_column 42) (at_column 44)]
          (at_column 38) (at_column 45))
       [NumberNode 5 (at_column 46) (at_column 47)]
       (at_column 38) (at_column 48)]
    (at_column 0) (at_column 48).

(** The execution context of the call [gen(10)], in which [add] is
    defined, and the execution context of the call of [add]. *)
Definition genContext : Context :=
  mkContext "gen" (Some globalContext) (Some (at_column 38)) 1%nat.

Definition addContext : Context :=
  mkContext "add" (Some globalContext) (Some (at_column 38)) 2%nat.

(** [shughuli f() { idadi(1) }; f()] *)
Definition builtinInFunction : Node :=
  ListNode
    [FuncDefNode (Some "f") []
       (CallNode (VarAccessNode "idadi" (at_column 15) (at_column 20))
          [NumberNode 1 (at_column 21) (at_column 22)]
          (at_column 15) (at_column 23))
       (at_column 0) (at_column 25);
     CallNode (VarAccessNode "f" (at_column 27) (at_column 28)) []
       (at_column 27) (at_column 30)]
    (at_column 0) (at_column 30).

(** The execution context of the call [f()] and, inside it, the execution
    context of the call [idadi(1)]. *)
Definition fContext : Context :=
  mkContext "f" (Some globalContext) (Some (at_column 27)) 1%nat.

Definition idadiContext : Context :=
  mkContext "idadi" (Some fContext) (Some (at_column 15)) 2%nat.

(** [shughuli f(a) { __hoja }; f(1)] *)
Definition hojaProgram : Node :=
  ListNode
    [FuncDefNode (Some "f") ["a"]
       (VarAccessNode "__hoja" (at_column 16) (at_column 22))
       (at_column 0) (at_column 24);
     CallNode (VarAccessNode "f" (at_column 26) (at_column 27))
       [NumberNode 1 (at_column 28) (at_column 29)]
       (at_column 26) (at_column 30)]
    (at_column 0) (at_column 30).

(** [kwa i = 0 mpaka 3 hatua h { i }], with [h] not defined *)
Definition stepNode : Node := VarAccessNode "h" (at_column 22) (at_column 23).

Definition forWithBadStep : Node :=
  ForNode "i" (NumberNode 0 (at_column 8) (at_column 9))
    (NumberNode 3 (at_column 16) (at_column 17)) (Some stepNode)
    (VarAccessNode "i" (at_column 26) (at_column 27))
    (at_column 0) (at_column 29).

(** [kama andika { 1 } sivyo { 2 }] *)
Definition ifOnFunction : Node :=
  IfNode
    [(VarAccessNode "andika" (at_column 5) (at_column 11),
      NumberNode 1 (at_column 14) (at_column 15))]
    (Some (NumberNode 2 (at_column 26) (at_column 27)))
    (at_column 0) (at_column 29).

(** [!andika] *)
Definition notOnFunction : Node :=
  UnaryOpNode NOT (VarAccessNode "andika" (at_column 1) (at_column 7))
    (at_column 0) (at_column 7).

(** [idadi("hello")] and [idadi(42)] *)
Definition idadiOf (arg : Node) : Node :=
  CallNode (VarAccessNode "idadi" (at_column 0) (at_column 5)) [arg]
    (at_column 0) (at_column 14).

Definition helloNode : Node :=
  StringNode "hello" (at_column 6) (at_column 13).

Definition fortyTwoNode : Node := NumberNode 42 (at_column 6) (at_column 8).

(** [wakati kweli { 1 }] *)
Definition whileForever : Node :=
  WhileNode (VarAccessNode "kweli" (at_column 7) (at_column 12))
    (NumberNode 1 (at_column 15) (at_column 16))
    (at_column 0) (at_column 18).

(** [kwa i = 1 mpaka 4 { 0 }] *)
Definition countToFour : Node :=
  ForNode "i" (NumberNode 1 (at_column 8) (at_column 9))
    (NumberNode 4 (at_column 16) (at_column 17)) None
    (NumberNode 0 (at_column 20) (at_column 21))
    (at_column 0) (at_column 23).

(** [kwa i = 0 mpaka 7 { i }], seven turns *)
Definition sevenTurns : Node :=
  ForNode "i" (NumberNode 0 (at_column 25) (at_column 26))
    (NumberNode 7 (at_column 33) (at_column 34)) None
    (VarAccessNode "i" (at_column 37) (at_column 38))
    (at_column 17) (at_column 40).

(** [shughuli hesabu() { kwa i = 0 mpaka 7 { i } }] and [hesabu()] *)
Definition defineHesabu : Node :=
  FuncDefNode (Some "hesabu") [] sevenTurns (at_column 0) (at_column 42).

Definition callHesabu : Node :=
  CallNode (VarAccessNode "hesabu" (at_column 44) (at_column 50)) []
    (at_column 44) (at_column 52).

End Examples.

(** The value [x] and the values it holds, when it is a List. *)
Fixpoint valuesIn (x : SWValue) : list SWValue :=
  x :: match x with
       | SWList elements _ =>
           (fix each (elements : list ValRef) : list SWValue :=
              match elements with
              | [] => []
              | Some y :: rest => valuesIn y ++ each rest
              | None :: rest => each rest
              end) elements
       | _ => []
       end.

(** Some table of the store holds [v], under a name or in a List that is
    bound to a name. The store holds values: two holders of one object
    hold equal values, so an object that the store holds has a value that
    the store holds, and an argument that is not [heldBy] the store is an
    object of its own. *)
Definition heldBy (w : World) (v : SWValue) : Prop :=
  ∃ t name x, ownBinding t name w = Some (Some x) ∧ v ∈ valuesIn x.

(** The callee expressions whose visitor stamps the value it returns with
    the context of the evaluation: [visitVarAccessNode], [visitCallNode]
    and [visitFuncDefNode]. *)
Definition stampsItsValue (node : Node) : bool :=
  match node with
  | VarAccessNode _ _ _ | CallNode _ _ _ _ | FuncDefNode _ _ _ _ _ => true
  | _ => false
  end.

(** What the shared Null has become after the stand-alone [populateArgs],
    called with [given] arguments for [declared] parameters: it carries
    the execution context when a parameter was bound to it. *)
Definition nullAfter (ec : Context) (nullType : bool)
    (declared given : nat) (NULL : SWValue) : SWValue :=
  if nullType && (given <? declared)%nat then setContext (Some ec) NULL
  else NULL.

(** ** Vocabulary of the further properties *)

(** The store [w'] continues the store [w]: every table of [w] is still
    there, with the same parent and with every name it had bound still
    bound; what was written to the terminal is still written; what is left
    of the input is an end of what was left. *)
Definition continues (w w' : World) : Prop :=
  (∀ t tb,
     tables w !! t = Some tb →
     ∃ tb',
       tables w' !! t = Some tb'
       ∧ tableParent tb' = tableParent tb
       ∧ dom (symbols tb) ⊆ dom (symbols tb'))
  ∧ output w `prefix_of` output w'
  ∧ input w' `suffix_of` input w.

(** A computation that, however it ends, leaves a store that continues
    the one it started in. *)
Definition growing {A} (m : Eval A) : Prop :=
  ∀ w x w', m w = (x, w') → continues w w'.

Section MoreVocabulary.
Context `{MissingClasses}.
Variable visit : Node → Context → Eval RTResult.

(** The nodes are visited one after the other, each without error: the
    values, in order, and the store that is left. *)
Fixpoint succeedAll (nodes : list Node) (c : Context) (w : World)
    : option (list ValRef * World) :=
  match nodes with
  | [] => Some ([], w)
  | node :: rest =>
      match succeeds visit node c w with
      | Some (v, w1) =>
          match succeedAll rest c w1 with
          | Some (vs, w2) => Some (v :: vs, w2)
          | None => None
          end
      | None => None
      end
  end.

(** The conditions of the cases are visited one after the other, each
    without error, and none of them is truthy: the store that is left. *)
Fixpoint noneHolds (cases : list (Node * Node)) (c : Context) (w : World)
    : option World :=
  match cases with
  | [] => Some w
  | (condition, _) :: rest =>
      match succeeds visit condition c w with
      | Some (Some conditionValue, w1) =>
          if isTrue conditionValue then None else noneHolds rest c w1
      | _ => None
      end
  end.

End MoreVocabulary.

(** ** The lexeme table *)

(** [src/swh/lexemes.js]: the table of the regular expressions the lexer
    tests one character against. None of them has a flag, an anchor or a
    quantifier, so each one is a set of UTF-16 code units. *)
Module Lexemes.

Inductive Lexeme :=
  | digits | alpha | dot | doubleQuotes | plus | hyphen | asterisk | modulo
  | forwardSlash | backSlash | caret | leftParen | rightParen | leftSquare
  | rightSquare | leftCurly | rightCurly | comma | ampersand | pipe
  | exclamation | equals | leftArrow | rightArrow | lineEndings
  | spacesAndTabs.

Definition between (lo hi u : Z) : bool := (lo <=? u) && (u <=? hi).

(** The class [\s] of a regular expression without the [u] flag: the
    white space and the line terminators of ECMAScript. *)
Definition whiteSpace (u : Z) : bool :=
  between 9 13 u || (u =? 32) || (u =? 160) || (u =? 5760)
  || between 8192 8202 u || (u =? 8232) || (u =? 8233) || (u =? 8239)
  || (u =? 8287) || (u =? 12288) || (u =? 65279).

(** The code units that the pattern of a lexeme matches. *)
Definition pattern (lexeme : Lexeme) (u : Z) : bool :=
  match lexeme with
  | digits => between 48 57 u
  | alpha => between 65 90 u || between 97 122 u || (u =? 95)
  | dot => u =? 46
  | doubleQuotes => u =? 34
  | plus => u =? 43
  | hyphen => u =? 45
  | asterisk => u =? 42
  | modulo => u =? 37
  | forwardSlash => u =? 47
  | backSlash => u =? 92
  | caret => u =? 94
  | leftParen => u =? 40
  | rightParen => u =? 41
  | leftSquare => u =? 91
  | rightSquare => u =? 93
  | leftCurly => u =? 123
  | rightCurly => u =? 125
  | comma => u =? 44
  | ampersand => u =? 38
  | pipe => u =? 124
  | exclamation => u =? 33
  | equals => u =? 61
  | leftArrow => u =? 60
  | rightArrow => u =? 62
  | lineEndings => (u =? 13) || (u =? 10) || (u =? 59)
  | spacesAndTabs => whiteSpace u || (u =? 9)
  end.

End Lexemes.

(** ** Programs for the further properties *)

Module MoreExamples.
Import SpecModel Examples.

(** The literals [1] and [2], the undefined variable [x], and the values
    the literals evaluate to in the global context. *)
Definition one : Node := NumberNode 1 (at_column 1) (at_column 2).
Definition two : Node := NumberNode 2 (at_column 4) (at_column 5).
Definition unbound : Node := VarAccessNode "x" (at_column 7) (at_column 8).

Definition numberAt (n : Z) (first last : nat) : SWValue :=
  SWNumber n
    (mkStamp (Some (at_column first)) (Some (at_column last))
       (Some globalContext)).

Definition notDefined : RTError :=
  mkRTError (Some (at_column 7)) (Some (at_column 8)) "'x' is not defined"
    (Some globalContext).

(** [andika] as the global table holds it, and as a call site at columns
    20 to 30 sees it. *)
Definition andikaAtCall : SWValue :=
  restamped (SWBuiltInFunction andika fresh) (at_column 20) (at_column 30)
    globalContext.


(** The constants [kweli] and [uwongo], and [andika], as expressions *)
Definition kweli : Node := VarAccessNode "kweli" (at_column 10) (at_column 15).
Definition uwongo : Node :=
  VarAccessNode "uwongo" (at_column 10) (at_column 16).
Definition andikaNode : Node :=
  VarAccessNode "andika" (at_column 10) (at_column 16).

(** [wakati endelea { endelea = uwongo }], and a store in which [endelea]
    is true *)
Definition onceMore : Node :=
  WhileNode (VarAccessNode "endelea" (at_column 7) (at_column 14))
    (VarAssignNode "endelea" uwongo (at_column 17) (at_column 33))
    (at_column 0) (at_column 35).

Definition endeleaIsTrue : World :=
  set 0%nat "endelea" (Some (SWBoolean true fresh)) (initialWorld []).

(** The closure example in its parts: the definition of [gen], the store
    it leaves, and the call [gen(10)], which is the callee of
    [gen(10)(5)]. *)
Definition genDefinition : Node :=
  FuncDefNode (Some "gen") ["n"]
    (FuncDefNode (Some "add") ["x"] addBody (at_column 18) (at_column 34))
    (at_column 0) (at_column 36).

Definition afterGen : World :=
  snd (visit 1 defaultMaxCallStackSize genDefinition globalContext
         (initialWorld [])).

Definition genCall : Node :=
  CallNode (VarAccessNode "gen" (at_column 38) (at_column 41))
    [NumberNode 10 (at_column 42) (at_column 44)]
    (at_column 38) (at_column 45).

Definition five : Node := NumberNode 5 (at_column 46) (at_column 47).






End MoreExamples.

(** * Properties *)

(** ** The store *)

Lemma set_length t name v w :
  length (tables (set t name v w)) = length (tables w).
Proof. unfold set; simpl. apply length_alter. Qed.

Lemma set_output t name v w : output (set t name v w) = output w.
Proof. reflexivity. Qed.

Lemma set_input t name v w : input (set t name v w) = input w.
Proof. reflexivity. Qed.

Lemma ownBinding_set_eq t name v w :
  is_Some (tables w !! t) → ownBinding t name (set t name v w) = Some v.
Proof.
  intros [tb Htb]. unfold ownBinding, set; simpl.
  rewrite list_lookup_alter_eq, Htb; simpl.
  apply lookup_insert_eq.
Qed.

Lemma ownBinding_set_ne t t' name name' v w :
  t ≠ t' ∨ name ≠ name' →
  ownBinding t' name' (set t name v w) = ownBinding t' name' w.
Proof.
  intros Hne. unfold ownBinding, set; simpl.
  destruct (decide (t = t')) as [<- | Ht].
  - rewrite list_lookup_alter_eq.
    destruct (tables w !! t) as [tb |]; simpl; [| done].
    destruct Hne as [? | Hn]; [done |]. by rewrite lookup_insert_ne.
  - by rewrite list_lookup_alter_ne.
Qed.

Lemma set_keeps_table t t' name v w :
  is_Some (tables w !! t) → is_Some (tables (set t' name v w) !! t).
Proof.
  intros Ht. apply lookup_lt_is_Some. rewrite set_length.
  by apply lookup_lt_is_Some.
Qed.

Lemma ownBinding_is_Some t name w :
  is_Some (ownBinding t name w) → is_Some (tables w !! t).
Proof.
  unfold ownBinding. destruct (tables w !! t); [eauto | intros [? ?]; done].
Qed.

(** A name bound in a table itself is what [get] finds there. *)
Lemma get_ownBinding t name v w :
  ownBinding t name w = Some v → get t name w = v.
Proof.
  unfold ownBinding, get.
  destruct (tables w !! t) as [tb |] eqn:Htb; simpl; intros Hown; [| done].
  assert (t < length (tables w))%nat as Hlt by (eapply lookup_lt_Some; eauto).
  destruct (length (tables w)) as [| d]; [lia |].
  simpl. by rewrite Htb, Hown.
Qed.

Section Properties.
Context `{MissingClasses}.

(** ** Running monadic code *)

Lemma bind_Done {A B} (m : Eval A) (k : A → Eval B) a w w' :
  m w = (Done a, w') → bind m k w = k a w'.
Proof. unfold bind. by intros ->. Qed.

Lemma bind_Throw {A B} (m : Eval A) (k : A → Eval B) e w w' :
  m w = (Throw e, w') → bind m k w = (Throw e, w').
Proof. unfold bind. by intros ->. Qed.

Lemma bind_OutOfFuel {A B} (m : Eval A) (k : A → Eval B) w w' :
  m w = (OutOfFuel, w') → bind m k w = (OutOfFuel, w').
Proof. unfold bind. by intros ->. Qed.

Lemma bind_ret {A B} (a : A) (k : A → Eval B) w : bind (ret a) k w = k a w.
Proof. reflexivity. Qed.

Lemma bind_update {B} (f : World → World) (k : unit → Eval B) w :
  bind (update f) k w = k () (f w).
Proof. reflexivity. Qed.

Lemma bind_read {A B} (f : World → A) (k : A → Eval B) w :
  bind (read f) k w = k (f w) w.
Proof. reflexivity. Qed.

Lemma bind_ext {A B} (m1 m2 : Eval A) (k1 k2 : A → Eval B) w :
  m1 w = m2 w → (∀ a w', k1 a w' = k2 a w') →
  bind m1 k1 w = bind m2 k2 w.
Proof.
  intros Hm Hk. unfold bind. rewrite Hm.
  destruct (m2 w) as [[a | | |] w']; auto.
Qed.

Lemma register_success res v :
  register res (success newRTResult v) = (v, res).
Proof. reflexivity. Qed.

Lemma register_failure res e :
  register res (failure newRTResult e)
  = (None, mkRTResult (resValue res) (Some e)).
Proof. reflexivity. Qed.

Lemma register_ok res r :
  resError r = None → register res r = (resValue r, res).
Proof. unfold register. by intros ->. Qed.

(** ** Truthiness and negation of function values *)

Lemma isFunction_inSource v : isFunction v = true → inSource v = true.
Proof. by destruct v. Qed.

Lemma isTrue_function v : isFunction v = true → isTrue v = false.
Proof. intros Hf. unfold isTrue. by rewrite (isFunction_inSource v Hf). Qed.

Lemma notted_function v w :
  isFunction v = true →
  notted v w = (Throw (ReferenceError "other is not defined"), w).
Proof. intros Hf. unfold notted. by rewrite (isFunction_inSource v Hf). Qed.

(** C4, as the code has it: a user function or a built-in function is not
    truthy. [isTrue] is the base class's, which answers [false], so an
    [IfNode] case whose condition evaluates to a function value is passed
    over and the next case is tried. *)
Theorem C4_function_values_are_falsy (v : SWValue) :
  isFunction v = true →
  isTrue v = false ∧
  ∀ visit condition expr rest context res w w1,
    hasError res = false →
    visit condition context w = (Done (success newRTResult (Some v)), w1) →
    visitCases visit ((condition, expr) :: rest) context res w
    = visitCases visit rest context res w1.
Proof.
  intros Hf. split; [by apply isTrue_function |].
  intros visit condition expr rest context res w w1 Hres Hcond.
  cbn [visitCases].
  rewrite (bind_Done _ _ _ _ _ Hcond), register_success, Hres.
  cbn [deref]. unfold bind at 1, ret at 1.
  by rewrite (isTrue_function v Hf).
Qed.

(** C5: applying [!] to a function value throws. [notted] of the base class
    refers to a variable [other] that does not exist, and neither function
    class overrides the method; the exception leaves [visitUnaryOpNode]
    without any result. *)
Theorem C5_notted_function_throws (v : SWValue) :
  isFunction v = true →
  (∀ w, notted v w = (Throw (ReferenceError "other is not defined"), w)) ∧
  ∀ visit node ps pe context w w1,
    visit node context w = (Done (success newRTResult (Some v)), w1) →
    visitUnaryOpNode visit NOT node ps pe context w
    = (Throw (ReferenceError "other is not defined"), w1).
Proof.
  intros Hf. split; [intros w; by apply notted_function |].
  intros visit node ps pe context w w1 Hnode.
  unfold visitUnaryOpNode.
  rewrite (bind_Done _ _ _ _ _ Hnode), register_success.
  cbn [hasError resError newRTResult unaryDispatch deref].
  unfold bind, ret. by rewrite notted_function.
Qed.

(** ** The call protocol *)

Lemma stamp_setContext c v :
  stamp (setContext c v)
  = mkStamp (posStart (stamp v)) (posEnd (stamp v)) c.
Proof. by destruct v. Qed.

Lemma stamp_setPosition ps pe v :
  stamp (setPosition ps pe v) = mkStamp ps pe (context (stamp v)).
Proof. by destruct v. Qed.

Lemma generateNewContext_eq this c w :
  context (stamp this) = Some c →
  generateNewContext this w
  = (Done (mkContext (nameOf this) (Some c) (posStart (stamp this))
             (length (tables w))),
     withNewTable ∅ (Some (symbolTable c)) w).
Proof. intros Hc. unfold generateNewContext. by rewrite Hc. Qed.

Lemma set_withNewTable bound p name v w :
  set (length (tables w)) name v (withNewTable bound p w)
  = withNewTable (<[name := v]> bound) p w.
Proof.
  unfold set, withNewTable; simpl. f_equal.
  rewrite alter_app_r_alt by lia.
  by replace (length (tables w) - length (tables w))%nat with 0%nat by lia.
Qed.

Lemma ownBinding_withNewTable bound p name w :
  ownBinding (length (tables w)) name (withNewTable bound p w)
  = bound !! name.
Proof.
  unfold ownBinding, withNewTable; simpl.
  rewrite lookup_app_r by lia.
  by replace (length (tables w) - length (tables w))%nat with 0%nat by lia.
Qed.

Lemma parentOf_withNewTable bound p w :
  parentOf (length (tables w)) (withNewTable bound p w) = p.
Proof.
  unfold parentOf, withNewTable; simpl.
  rewrite lookup_app_r by lia.
  by replace (length (tables w) - length (tables w))%nat with 0%nat by lia.
Qed.

Lemma checkArgs_mismatch this argNames args :
  length args ≠ length argNames →
  checkArgs this argNames args
  = failure newRTResult
      (mkRTError (posStart (stamp this)) (posEnd (stamp this))
         (if (length argNames <? length args)%nat then
            pretty (length args - length argNames)%nat
              +:+ " too many args passed into " +:+ nameOf this
          else
            pretty (length argNames - length args)%nat
              +:+ " too few args passed into " +:+ nameOf this)
         (context (stamp this))).
Proof.
  intros Hne. unfold checkArgs.
  destruct (length argNames <? length args)%nat eqn:Hgt; [done |].
  apply Nat.ltb_ge in Hgt.
  destruct (length args <? length argNames)%nat eqn:Hlt; [done |].
  apply Nat.ltb_ge in Hlt. lia.
Qed.

Lemma checkArgs_match this argNames args :
  length args = length argNames →
  checkArgs this argNames args = success newRTResult (Some (SWNull fresh)).
Proof.
  intros Heq. unfold checkArgs. rewrite Heq.
  by rewrite Nat.ltb_irrefl.
Qed.

Lemma populateArgsFrom_new vs i argNames ec bound p w :
  symbolTable ec = length (tables w) →
  populateArgsFrom i argNames (Some <$> vs) ec (withNewTable bound p w)
  = (Done (), withNewTable (boundFrom i argNames vs ec bound) p w).
Proof.
  intros Hec. revert i bound.
  induction vs as [| v vs IH]; intros i bound; [done |].
  cbn [fmap list_fmap populateArgsFrom boundFrom deref].
  rewrite bind_ret, bind_update, Hec, set_withNewTable.
  apply IH.
Qed.

(** A call with as many arguments as parameters, none of them null, into
    an execution context whose table has just been created. *)
Lemma checkAndPopulateArgs_new this argNames vs ec bound p w :
  symbolTable ec = length (tables w) →
  length vs = length argNames →
  checkAndPopulateArgs this argNames (Some <$> vs) ec (withNewTable bound p w)
  = (Done (success newRTResult None),
     withNewTable (boundFrom 0 argNames vs ec bound) p w).
Proof.
  intros Hec Hlen. unfold checkAndPopulateArgs.
  rewrite checkArgs_match by (by rewrite length_fmap).
  cbn [register success resError resValue newRTResult hasError].
  unfold populateArgs.
  by rewrite (bind_Done _ _ _ _ _ (populateArgsFrom_new _ _ _ _ _ _ _ Hec)).
Qed.

(** C7: a call with the wrong number of arguments fails with an error at
    the callee's position and in its context, whose message counts the
    surplus or the missing arguments and names the function. Only the new
    symbol table has been created by then: nothing is bound in it, the
    terminal is untouched, and the result does not depend on the body
    ([visitWith] is never applied). *)
Theorem C7_arity_mismatch
    (visitWith : Z → Node → Context → Eval RTResult) (this : SWValue)
    (args : list ValRef) (c : Context) (w : World) :
  isFunction this = true →
  context (stamp this) = Some c →
  length args ≠ length (paramNames this) →
  execute visitWith this args w
  = (Done
       (failure newRTResult
          (mkRTError (posStart (stamp this)) (posEnd (stamp this))
             (if (length (paramNames this) <? length args)%nat then
                pretty (length args - length (paramNames this))%nat
                  +:+ " too many args passed into " +:+ nameOf this
              else
                pretty (length (paramNames this) - length args)%nat
                  +:+ " too few args passed into " +:+ nameOf this)
             (context (stamp this)))),
     withNewTable ∅ (Some (symbolTable c)) w).
Proof.
  intros Hf Hc Hne.
  destruct this as [| | | | | | name bodyNode argNames st | name st];
    try discriminate Hf; cbn [execute paramNames] in *.
  - unfold executeFunction.
    rewrite (bind_Done _ _ _ _ _ (generateNewContext_eq _ _ _ Hc)).
    unfold executeFunctionIn, checkAndPopulateArgs.
    by rewrite (checkArgs_mismatch _ _ _ Hne).
  - unfold executeBuiltIn.
    rewrite (bind_Done _ _ _ _ _ (generateNewContext_eq _ _ _ Hc)).
    unfold executeBuiltInIn, checkAndPopulateArgs.
    by rewrite (checkArgs_mismatch _ _ _ Hne).
Qed.

Lemma execute_idadi_eq ec v w :
  get (symbolTable ec) "value" w = Some v →
  execute_idadi ec w
  = (Done
       match v with
       | SWString s _ =>
           success newRTResult
             (Some (SWNumber (Z.of_nat (String.length s)) fresh))
       | SWList elements _ =>
           success newRTResult
             (Some (SWNumber (Z.of_nat (length elements)) fresh))
       | _ =>
           failure newRTResult
             (mkRTError (posStart (stamp v)) (posEnd (stamp v))
                "Cannot find length of non-iterable value" (Some ec))
       end, w).
Proof.
  intros Hget. unfold execute_idadi. rewrite bind_read, Hget.
  by destruct v.
Qed.

(** C8: [idadi] applied to a String answers the Number of its length,
    applied to a List the Number of its elements, and applied to any other
    value fails with the message "Cannot find length of non-iterable
    value", positioned at the argument. *)
Theorem C8_idadi
    (visitWith : Z → Node → Context → Eval RTResult) (st : Stamp)
    (c : Context) (v : SWValue) (w : World) :
  context st = Some c →
  let executionContext :=
    mkContext "idadi" (Some c) (posStart st) (length (tables w)) in
  execute visitWith (SWBuiltInFunction idadi st) [Some v] w
  = (Done
       match v with
       | SWString s _ =>
           success newRTResult
             (Some (SWNumber (Z.of_nat (String.length s)) fresh))
       | SWList elements _ =>
           success newRTResult
             (Some (SWNumber (Z.of_nat (length elements)) fresh))
       | _ =>
           failure newRTResult
             (mkRTError (posStart (stamp v)) (posEnd (stamp v))
                "Cannot find length of non-iterable value"
                (Some executionContext))
       end,
     withNewTable {["value" := Some (setContext (Some executionContext) v)]}
       (Some (symbolTable c)) w).
Proof.
  intros Hc ec. cbn [execute]. unfold executeBuiltIn.
  rewrite (bind_Done _ _ _ _ _
             (generateNewContext_eq (SWBuiltInFunction idadi st) c w Hc)).
  cbn [nameOf builtinName stamp]. fold ec.
  unfold executeBuiltInIn.
  rewrite (bind_Done _ _ _ _ _
             (checkAndPopulateArgs_new _ ["value"] [v] ec ∅ _ w
                eq_refl eq_refl)).
  cbn [register success resError resValue newRTResult hasError
       builtinArgNames builtinMethod boundFrom lookup list_lookup default].
  rewrite insert_empty.
  set (w' := withNewTable _ _ w).
  assert (get (symbolTable ec) "value" w'
          = Some (setContext (Some ec) v)) as Hget.
  { apply get_ownBinding. unfold w'.
    replace (symbolTable ec) with (length (tables w)) by reflexivity.
    rewrite ownBinding_withNewTable. apply lookup_singleton_eq. }
  rewrite (bind_Done _ _ _ _ _ (execute_idadi_eq _ _ _ Hget)).
  destruct v; reflexivity.
Qed.

(** ** The scope of a call *)

Lemma copy_function f ps pe c w :
  isFunction f = true →
  bind (copy f)
    (λ v, ret (setContext (Some c) (setPosition (Some ps) (Some pe) v))) w
  = (Done (restamped f ps pe c), w).
Proof. by destruct f. Qed.

Lemma visitVarAccessNode_function name ps pe c f w :
  get (symbolTable c) name w = Some f →
  isFunction f = true →
  visitVarAccessNode name ps pe c w
  = (Done (success newRTResult (Some (restamped f ps pe c))), w).
Proof.
  intros Hget Hf. unfold visitVarAccessNode.
  rewrite bind_read, Hget. by destruct f.
Qed.

Lemma restamped_isFunction f ps pe c :
  isFunction f = true → isFunction (restamped f ps pe c) = true.
Proof. by destruct f. Qed.

Lemma restamped_context f ps pe c :
  isFunction f = true → context (stamp (restamped f ps pe c)) = Some c.
Proof. by destruct f. Qed.

Lemma functionName_idempotent name :
  functionName (Some (functionName (Some name))) = functionName (Some name).
Proof. by destruct name. Qed.

(** The copy made by [visitCallNode] of a function that was reached by a
    variable access. *)
Lemma copy_restamped f p1 p2 ps pe c w :
  isFunction f = true →
  bind (copy (restamped f p1 p2 c))
    (λ v, ret (setPosition (Some ps) (Some pe) v)) w
  = (Done (restamped f ps pe c), w).
Proof.
  destruct f as [| | | | | | name bodyNode argNames st |]; try done.
  intros _. by destruct name.
Qed.

Lemma execute_function visitWith this c args w :
  isFunction this = true →
  context (stamp this) = Some c →
  execute visitWith this args w
  = executeIn visitWith this args
      (mkContext (nameOf this) (Some c) (posStart (stamp this))
         (length (tables w)))
      (withNewTable ∅ (Some (symbolTable c)) w).
Proof.
  intros Hf Hc. destruct this; try discriminate Hf; cbn [execute executeIn].
  - unfold executeFunction.
    by rewrite (bind_Done _ _ _ _ _ (generateNewContext_eq _ _ _ Hc)).
  - unfold executeBuiltIn.
    by rewrite (bind_Done _ _ _ _ _ (generateNewContext_eq _ _ _ Hc)).
Qed.

(** A computation that returns has gone through both parts of a [bind]. *)
Lemma bind_inv {A B} (m : Eval A) (k : A → Eval B) w b w' :
  bind m k w = (Done b, w') →
  ∃ a w1, m w = (Done a, w1) ∧ k a w1 = (Done b, w').
Proof.
  unfold bind. destruct (m w) as [[a | | |] w1]; try done. eauto.
Qed.

(** The copy that [visitCallNode] makes of the value of the callee, when
    it is a function that carries the context [d]. *)
Lemma copy_callee f ps pe d w :
  isFunction f = true →
  context (stamp f) = Some d →
  bind (copy f) (λ v, ret (setPosition (Some ps) (Some pe) v)) w
  = (Done (restamped f ps pe d), w).
Proof.
  destruct f as [| | | | | | name bodyNode argNames st | name st];
    try done; cbn [stamp]; intros _ Hd; unfold copy, bind, ret;
    cbn [setContext setPosition restamp newSWFunction restamped context
         posStart posEnd]; by rewrite Hd.
Qed.

(** A successful [returnFromCall] gives the value the context of the
    caller. *)
Lemma returnFromCall_context ps pe c res r f w w' :
  returnFromCall ps pe c res r w = (Done (mkRTResult (Some f) None), w') →
  context (stamp f) = Some c.
Proof.
  unfold returnFromCall. destruct (register res r) as [returnValue res1].
  destruct (hasError res1) eqn:Herr.
  { intros [= -> _]. discriminate Herr. }
  intros (a & w1 & Ha & Hret)%bind_inv. injection Hret as -> _.
  destruct returnValue as [v |]; [| by injection Ha].
  apply bind_inv in Ha as (v' & w2 & _ & Hv). injection Hv as <- _.
  by rewrite stamp_setContext.
Qed.

Section CalleeContext.
Variable visit : Node → Context → Eval RTResult.
Variable execute : SWValue → list ValRef → Eval RTResult.

Lemma visitEach_Return nodes c :
  ∀ res elements w res' w',
    visitEach visit nodes c res elements w = (Done (Return res'), w') →
    hasError res' = true.
Proof.
  induction nodes as [| node nodes IH]; intros res elements w res' w';
    cbn [visitEach]; [done |].
  intros (r & w1 & _ & Hrest)%bind_inv.
  destruct (register res r) as [v res1].
  destruct (hasError res1) eqn:Herr; [| by eapply IH].
  by injection Hrest as <- _.
Qed.

(** A call that succeeds with a value gives it the context it is
    evaluated in. *)
Lemma visitCallNode_context nodeToCall argNodes ps pe c f w w' :
  visitCallNode visit execute nodeToCall argNodes ps pe c w
  = (Done (mkRTResult (Some f) None), w') →
  context (stamp f) = Some c.
Proof.
  unfold visitCallNode. intros (r & w1 & _ & Hrest)%bind_inv.
  destruct (register newRTResult r) as [valueToCall res1].
  destruct (hasError res1) eqn:Herr.
  { injection Hrest as -> _. discriminate Herr. }
  apply bind_inv in Hrest as (v & w2 & _ & Hrest).
  apply bind_inv in Hrest as (v' & w3 & _ & Hrest).
  apply bind_inv in Hrest as (flow & w4 & Hargs & Hrest).
  destruct flow as [res2 | [res2 args]].
  - apply visitEach_Return in Hargs. injection Hrest as -> _.
    discriminate Hargs.
  - apply bind_inv in Hrest as (r2 & w5 & _ & Hrest).
    by eapply returnFromCall_context.
Qed.

End CalleeContext.

(** The three kinds of callee whose value carries the context they are
    evaluated in: a name, a call and a function definition. *)
Lemma callee_context fuel maxCallStackSize nodeToCall c f w w' :
  stampsItsValue nodeToCall = true →
  visit fuel maxCallStackSize nodeToCall c w
  = (Done (mkRTResult (Some f) None), w') →
  context (stamp f) = Some c.
Proof.
  destruct fuel as [| fuel]; [done |].
  destruct nodeToCall; try done; intros _; cbn [visit].
  - unfold visitVarAccessNode. rewrite bind_read.
    destruct (get (symbolTable c) varName w) as [v |]; [| done].
    intros (v' & w1 & _ & Hv)%bind_inv. injection Hv as <- _.
    by rewrite stamp_setContext.
  - unfold visitFuncDefNode.
    intros (u & w1 & _ & Hv)%bind_inv. by injection Hv as <- _.
  - apply visitCallNode_context.
Qed.

(** C1, as the code has it: no defining context is kept. The function
    value that a call executes is a copy of the value of the callee
    expression, and the execution context has as its parent the context
    [d] that this value carries, its symbol table the symbol table of [d]
    as its parent. When the callee is a name, a call (as in [gen(10)(5)])
    or a function definition, [d] is the context that the call itself is
    evaluated in, whatever context the function was defined in: the body,
    or the host handler, runs in a scope that continues the scope of the
    call site. *)
Theorem C1_call_scope_is_call_site
    (fuel : nat) (maxCallStackSize : Z) (nodeToCall : Node)
    (ps pe : Position) (argNodes : list Node) (c d : Context)
    (f : SWValue) (res : RTResult) (args : list ValRef) (w w0 w1 : World) :
  visit (S fuel) maxCallStackSize nodeToCall c w
  = (Done (mkRTResult (Some f) None), w0) →
  isFunction f = true →
  context (stamp f) = Some d →
  visitEach (visit (S fuel) maxCallStackSize) argNodes c newRTResult [] w0
  = (Done (Next (res, args)), w1) →
  let this := restamped f ps pe d in
  let executionContext :=
    mkContext (nameOf this) (Some d) (Some ps) (length (tables w1)) in
  let w2 := withNewTable ∅ (Some (symbolTable d)) w1 in
  visit (S (S fuel)) maxCallStackSize
    (CallNode nodeToCall argNodes ps pe) c w
  = bind (executeIn (visit (S fuel)) this args executionContext)
      (returnFromCall ps pe c res) w2
  ∧ parent executionContext = Some d
  ∧ parentOf (symbolTable executionContext) w2 = Some (symbolTable d)
  ∧ (stampsItsValue nodeToCall = true → d = c).
Proof.
  intros Hcallee Hf Hd Hargs this ec w2.
  split; [| split; [done | split; [apply parentOf_withNewTable |]]].
  - cbn [visit]. unfold visitCallNode.
    rewrite (bind_Done _ _ _ _ _ Hcallee).
    cbn [register resValue resError newRTResult hasError deref].
    rewrite bind_ret.
    pose proof (copy_callee f ps pe d w0 Hf Hd) as Hcopy.
    unfold bind at 1 in Hcopy. unfold bind at 1.
    destruct (copy f w0) as [[v | | |] w0']; try discriminate Hcopy.
    injection Hcopy as -> ->.
    rewrite (bind_Done _ _ _ _ _ Hargs).
    unfold bind at 1.
    rewrite (execute_function _ (restamped f ps pe d) d args w1
               (restamped_isFunction _ _ _ _ Hf)
               (restamped_context _ _ _ _ Hf)).
    replace (posStart (stamp (restamped f ps pe d))) with (Some ps)
      by (by destruct f).
    reflexivity.
  - intros Hnode.
    pose proof (callee_context _ _ _ _ _ _ _ Hnode Hcallee) as Hc.
    congruence.
Qed.

(** ** The special name [__hoja] *)

Lemma boundFrom_other name i argNames vs ec bound :
  name ∉ argNames → name ≠ "undefined" →
  boundFrom i argNames vs ec bound !! name = bound !! name.
Proof.
  intros Hnot Hundef. revert i bound.
  induction vs as [| v vs IH]; intros i bound; [done |].
  cbn [boundFrom]. rewrite IH, lookup_insert_ne; [done |].
  destruct (argNames !! i) as [n |] eqn:Hn; simpl; [| done].
  intros ->. apply Hnot. by eapply list_elem_of_lookup_2.
Qed.

(** A call that passes the arity check, with no null argument: the
    parameters are bound in the new table, then the body or the handler
    runs. *)
Lemma execute_runs_body visitWith this c vs w :
  isFunction this = true →
  context (stamp this) = Some c →
  length vs = length (paramNames this) →
  let executionContext :=
    mkContext (nameOf this) (Some c) (posStart (stamp this))
      (length (tables w)) in
  execute visitWith this (Some <$> vs) w
  = bind (bodyOrHandler visitWith this executionContext) handBack
      (withNewTable (boundFrom 0 (paramNames this) vs executionContext ∅)
         (Some (symbolTable c)) w).
Proof.
  intros Hf Hc Hlen ec. rewrite (execute_function _ _ _ _ _ Hf Hc).
  fold ec.
  destruct this; try discriminate Hf;
    cbn [executeIn paramNames bodyOrHandler] in *.
  - unfold executeFunctionIn.
    by rewrite (bind_Done _ _ _ _ _
                  (checkAndPopulateArgs_new _ _ vs ec ∅ _ w eq_refl Hlen)).
  - unfold executeBuiltInIn.
    by rewrite (bind_Done _ _ _ _ _
                  (checkAndPopulateArgs_new _ _ vs ec ∅ _ w eq_refl Hlen)).
Qed.

(** C2: the call protocol of the interpreter binds the parameters and
    nothing else. When the arity check has passed, the body, or the host
    handler, starts in a store where the new symbol table of the execution
    context holds no binding of [__hoja]. *)
Theorem C2_hoja_is_not_bound
    (visitWith : Z → Node → Context → Eval RTResult) (this : SWValue)
    (c : Context) (vs : list SWValue) (w : World) :
  isFunction this = true →
  context (stamp this) = Some c →
  length vs = length (paramNames this) →
  "__hoja" ∉ paramNames this →
  let executionContext :=
    mkContext (nameOf this) (Some c) (posStart (stamp this))
      (length (tables w)) in
  let w2 :=
    withNewTable (boundFrom 0 (paramNames this) vs executionContext ∅)
      (Some (symbolTable c)) w in
  execute visitWith this (Some <$> vs) w
  = bind (bodyOrHandler visitWith this executionContext) handBack w2
  ∧ ownBinding (symbolTable executionContext) "__hoja" w2 = None.
Proof.
  intros Hf Hc Hlen Hnot ec w2.
  split; [by apply execute_runs_body |].
  unfold w2. replace (symbolTable ec) with (length (tables w))
    by reflexivity.
  rewrite ownBinding_withNewTable.
  rewrite boundFrom_other by done. apply lookup_empty.
Qed.

(** ** Errors in the step of a [kwa] loop *)

(** The two checks that [visitForNode] does make: an error in the start
    or in the end expression is returned at once. *)
Lemma visitForNode_start_error
    (visit : Node → Context → Eval RTResult) maxCallStackSize budget
    varName startValueNode endValueNode stepValueNode bodyNode ps pe c e
    w w1 :
  visit startValueNode c w = (Done (failure newRTResult e), w1) →
  visitForNode visit maxCallStackSize budget varName startValueNode
    endValueNode stepValueNode bodyNode ps pe c w
  = (Done (failure newRTResult e), w1).
Proof.
  intros Hstart. unfold visitForNode.
  by rewrite (bind_Done _ _ _ _ _ Hstart), register_failure.
Qed.

Lemma visitForNode_end_error
    (visit : Node → Context → Eval RTResult) maxCallStackSize budget
    varName startValueNode endValueNode stepValueNode bodyNode ps pe c r1 e
    w w1 w2 :
  visit startValueNode c w = (Done r1, w1) →
  resError r1 = None →
  visit endValueNode c w1 = (Done (failure newRTResult e), w2) →
  visitForNode visit maxCallStackSize budget varName startValueNode
    endValueNode stepValueNode bodyNode ps pe c w
  = (Done (failure newRTResult e), w2).
Proof.
  intros Hstart Hok Hend. unfold visitForNode.
  rewrite (bind_Done _ _ _ _ _ Hstart), (register_ok _ _ Hok).
  cbn [hasError resError newRTResult].
  by rewrite (bind_Done _ _ _ _ _ Hend), register_failure.
Qed.

(** C3: [visitForNode] does not look at [res.error] after it has visited
    the step expression. When that expression fails, the error is not
    returned: [stepValue] is null, and reading [stepValue.value] throws. *)
Theorem C3_step_error_is_not_returned
    (visit : Node → Context → Eval RTResult) (maxCallStackSize : Z)
    (budget : nat) (varName : string)
    (startValueNode endValueNode stepValueNode bodyNode : Node)
    (ps pe : Position) (c : Context) (start : Z) (st : Stamp)
    (r2 : RTResult) (e : RTError) (w w1 w2 w3 : World) :
  visit startValueNode c w
  = (Done (success newRTResult (Some (SWNumber start st))), w1) →
  visit endValueNode c w1 = (Done r2, w2) →
  hasError r2 = false →
  visit stepValueNode c w2 = (Done (failure newRTResult e), w3) →
  visitForNode visit maxCallStackSize budget varName startValueNode
    endValueNode (Some stepValueNode) bodyNode ps pe c w
  = (Throw (TypeError "Cannot read properties of null"), w3).
Proof.
  intros Hstart Hend Hok Hstep. unfold visitForNode.
  rewrite (bind_Done _ _ _ _ _ Hstart), register_success.
  cbn [hasError resError newRTResult].
  rewrite (bind_Done _ _ _ _ _ Hend).
  unfold hasError in Hok. unfold register at 1.
  destruct (resError r2); [done |].
  cbn [hasError resError newRTResult].
  erewrite (bind_Done (bind _ _));
    [| by rewrite (bind_Done _ _ _ _ _ Hstep)].
  reflexivity.
Qed.

(** ** The bound on the iterations of a loop *)

Lemma succeeds_inv visit node c w v w' :
  succeeds visit node c w = Some (v, w') →
  ∃ r, visit node c w = (Done r, w') ∧ resError r = None ∧ resValue r = v.
Proof.
  unfold succeeds. destruct (visit node c w) as [[r | | |] w0]; try done.
  destruct (resError r) eqn:He; [done |].
  intros [= <- <-]. eauto.
Qed.

Lemma givesNumber_inv visit node c w n w' :
  givesNumber visit node c w = Some (n, w') →
  ∃ r st,
    visit node c w = (Done r, w') ∧ resError r = None
    ∧ resValue r = Some (SWNumber n st).
Proof.
  unfold givesNumber.
  destruct (succeeds visit node c w) as [[[v |] w0] |] eqn:Hs; try done.
  destruct v; try done. intros [= <- <-].
  apply succeeds_inv in Hs as (r & Hv & He & Hr). eauto.
Qed.

Section Loops.
Variable visit : Node → Context → Eval RTResult.
Variable maxCallStackSize : Z.
Variables (ps pe : Position) (c : Context).

Lemma whileLoop_hits_bound conditionNode bodyNode :
  ∀ n budget calls res elements w vs w',
    hasError res = false →
    (1 ≤ n)%nat →
    calls + Z.of_nat n = maxCallStackSize →
    (n ≤ budget)%nat →
    whileIterations visit n conditionNode bodyNode c w = Some (vs, w') →
    whileLoop visit maxCallStackSize budget conditionNode bodyNode ps pe c
      calls res elements w
    = (Done (failure newRTResult (maxCallStackError ps pe c)), w').
Proof.
  induction n as [| n IH];
    intros budget calls res elements w vs w' Hres Hn Hcalls Hbudget Hiter;
    [lia |].
  destruct budget as [| budget]; [lia |].
  cbn [whileIterations] in Hiter.
  destruct (whileIteration visit conditionNode bodyNode c w)
    as [[v w1] |] eqn:Hit; [| done].
  unfold whileIteration in Hit.
  destruct (succeeds visit conditionNode c w)
    as [[[condition |] wc] |] eqn:Hc; try done.
  destruct (isTrue condition) eqn:Htrue; [| done].
  apply succeeds_inv in Hc as (rc & Hvc & Hec & Hrc).
  apply succeeds_inv in Hit as (rb & Hvb & Heb & Hrb).
  cbn [whileLoop].
  rewrite (bind_Done _ _ _ _ _ Hvc), (register_ok _ _ Hec), Hres, Hrc.
  cbn [deref]. rewrite bind_ret, Htrue. cbn [negb].
  rewrite (bind_Done _ _ _ _ _ Hvb), (register_ok _ _ Heb), Hres.
  destruct n as [| n].
  - cbn [whileIterations] in Hiter. injection Hiter as <- <-.
    replace (calls + 1 =? maxCallStackSize) with true
      by (symmetry; apply Z.eqb_eq; lia).
    reflexivity.
  - replace (calls + 1 =? maxCallStackSize) with false
      by (symmetry; apply Z.eqb_neq; lia).
    destruct (whileIterations visit (S n) conditionNode bodyNode c w1)
      as [[vs' w2] |] eqn:Hrest; [| done].
    injection Hiter as <- <-.
    eapply IH; eauto; lia.
Qed.

Lemma forLoop_hits_bound varName bodyNode step endValue :
  ∀ n budget i calls res elements w vs w',
    hasError res = false →
    (1 ≤ n)%nat →
    calls + Z.of_nat n = maxCallStackSize →
    (n ≤ budget)%nat →
    forIterations visit n varName bodyNode c step endValue i w
    = Some (vs, w') →
    forLoop visit maxCallStackSize budget varName bodyNode ps pe c step
      endValue i calls res elements w
    = (Done (failure newRTResult (maxCallStackError ps pe c)), w').
Proof.
  induction n as [| n IH];
    intros budget i calls res elements w vs w' Hres Hn Hcalls Hbudget Hiter;
    [lia |].
  destruct budget as [| budget]; [lia |].
  cbn [forIterations] in Hiter.
  destruct (heldExactly step endValue i) eqn:Hheld; [| done].
  destruct (forCondition step endValue i) eqn:Hcond; [| done].
  cbn [andb] in Hiter.
  destruct (succeeds visit bodyNode c _) as [[v w1] |] eqn:Hb; [| done].
  apply succeeds_inv in Hb as (rb & Hvb & Heb & Hrb).
  cbn [forLoop]. rewrite Hheld, Hcond. cbn [negb]. rewrite bind_update.
  rewrite (bind_Done _ _ _ _ _ Hvb), (register_ok _ _ Heb), Hres.
  destruct n as [| n].
  - cbn [forIterations] in Hiter. injection Hiter as <- <-.
    replace (calls + 1 =? maxCallStackSize) with true
      by (symmetry; apply Z.eqb_eq; lia).
    reflexivity.
  - replace (calls + 1 =? maxCallStackSize) with false
      by (symmetry; apply Z.eqb_neq; lia).
    destruct (forIterations visit (S n) varName bodyNode c step endValue
                (i + step) w1) as [[vs' w2] |] eqn:Hrest; [| done].
    injection Hiter as <- <-.
    eapply IH; eauto; lia.
Qed.

(** The budget of a loop beyond the bound that is left is never used. *)
Lemma whileLoop_budget conditionNode bodyNode :
  ∀ budget1 budget2 calls res elements w,
    calls < maxCallStackSize →
    maxCallStackSize - calls ≤ Z.of_nat budget1 →
    maxCallStackSize - calls ≤ Z.of_nat budget2 →
    whileLoop visit maxCallStackSize budget1 conditionNode bodyNode ps pe c
      calls res elements w
    = whileLoop visit maxCallStackSize budget2 conditionNode bodyNode ps pe
        c calls res elements w.
Proof.
  induction budget1 as [| budget1 IH];
    intros budget2 calls res elements w Hlt Hle1 Hle2; [lia |].
  destruct budget2 as [| budget2]; [lia |].
  cbn [whileLoop]. apply bind_ext; [done |]. intros rc w1.
  destruct (register res rc) as [cv res1].
  destruct (hasError res1); [done |].
  apply bind_ext; [done |]. intros condition w2.
  destruct (negb (isTrue condition)); [done |].
  apply bind_ext; [done |]. intros rb w3.
  destruct (register res1 rb) as [v res2].
  destruct (hasError res2); [done |].
  destruct (calls + 1 =? maxCallStackSize) eqn:Heq; [done |].
  apply Z.eqb_neq in Heq. apply IH; lia.
Qed.

Lemma forLoop_budget varName bodyNode step endValue :
  ∀ budget1 budget2 i calls res elements w,
    calls < maxCallStackSize →
    maxCallStackSize - calls ≤ Z.of_nat budget1 →
    maxCallStackSize - calls ≤ Z.of_nat budget2 →
    forLoop visit maxCallStackSize budget1 varName bodyNode ps pe c step
      endValue i calls res elements w
    = forLoop visit maxCallStackSize budget2 varName bodyNode ps pe c step
        endValue i calls res elements w.
Proof.
  induction budget1 as [| budget1 IH];
    intros budget2 i calls res elements w Hlt Hle1 Hle2; [lia |].
  destruct budget2 as [| budget2]; [lia |].
  cbn [forLoop].
  destruct (negb (heldExactly step endValue i)); [done |].
  destruct (forCondition step endValue i); [| done].
  apply bind_ext; [done |]. intros _ w1.
  apply bind_ext; [done |]. intros rb w2.
  destruct (register res rb) as [v res2].
  destruct (hasError res2); [done |].
  destruct (calls + 1 =? maxCallStackSize) eqn:Heq; [done |].
  apply Z.eqb_neq in Heq. apply IH; lia.
Qed.

End Loops.

(** [visitForNode] once its three bounds have been visited and are
    Numbers: what is left is the loop. *)
Lemma visitForNode_bounds visit maxCallStackSize budget varName
    startValueNode endValueNode stepValueNode bodyNode ps pe c w
    start endValue step w3 :
  forBounds visit startValueNode endValueNode stepValueNode c w
  = Some (start, endValue, step, w3) →
  visitForNode visit maxCallStackSize budget varName startValueNode
    endValueNode stepValueNode bodyNode ps pe c w
  = forLoop visit maxCallStackSize budget varName bodyNode ps pe c step
      endValue start 0 newRTResult [] w3.
Proof.
  unfold forBounds. intros Hb.
  destruct (givesNumber visit startValueNode c w) as [[a w1] |] eqn:Hs;
    [| done].
  destruct (givesNumber visit endValueNode c w1) as [[e w2] |] eqn:He;
    [| done].
  apply givesNumber_inv in Hs as (rs & sts & Hvs & Hes & Hrs).
  apply givesNumber_inv in He as (re & ste & Hve & Hee & Hre).
  unfold visitForNode.
  rewrite (bind_Done _ _ _ _ _ Hvs), (register_ok _ _ Hes).
  cbn [hasError resError newRTResult].
  rewrite (bind_Done _ _ _ _ _ Hve), (register_ok _ _ Hee).
  cbn [hasError resError newRTResult].
  destruct stepValueNode as [stepNode |].
  - destruct (givesNumber visit stepNode c w2) as [[s w3'] |] eqn:Hst;
      [| done].
    injection Hb as <- <- <- <-.
    apply givesNumber_inv in Hst as (rst & stst & Hvst & Hest & Hrst).
    erewrite (bind_Done (bind _ _));
      [| by rewrite (bind_Done _ _ _ _ _ Hvst), (register_ok _ _ Hest)].
    rewrite Hrs, Hrst, Hre. reflexivity.
  - injection Hb as <- <- <- <-.
    rewrite bind_ret, Hrs, Hre. reflexivity.
Qed.

(** The budget of [visitForNode] beyond the bound is never used. *)
Lemma visitForNode_budget visit maxCallStackSize budget1 budget2 varName
    startValueNode endValueNode stepValueNode bodyNode ps pe c w :
  1 ≤ maxCallStackSize →
  maxCallStackSize ≤ Z.of_nat budget1 →
  maxCallStackSize ≤ Z.of_nat budget2 →
  visitForNode visit maxCallStackSize budget1 varName startValueNode
    endValueNode stepValueNode bodyNode ps pe c w
  = visitForNode visit maxCallStackSize budget2 varName startValueNode
      endValueNode stepValueNode bodyNode ps pe c w.
Proof.
  intros Hmax H1 H2. unfold visitForNode.
  apply bind_ext; [done |]. intros rs w1.
  destruct (register newRTResult rs) as [startValue res1].
  destruct (hasError res1); [done |].
  apply bind_ext; [done |]. intros re w2.
  destruct (register res1 re) as [endValue res2].
  destruct (hasError res2); [done |].
  apply bind_ext; [done |]. intros [stepValue res3] w3.
  apply bind_ext; [done |]. intros i w4.
  apply bind_ext; [done |]. intros step w5.
  apply bind_ext; [done |]. intros e w6.
  apply forLoop_budget; lia.
Qed.

(** C6: each evaluation of a [wakati] or [kwa] loop counts its own turns
    from zero. When the condition holds and the body is evaluated without
    error [maxCallStackSize] times in a row, the evaluation stops there: it
    fails with the error whose message is "Max call stack size exceeded",
    from the start to the end of the loop node, in the context of the
    loop, and leaves the store of the last turn. So no loop evaluates its
    body more than [maxCallStackSize] times: with whatever visitor, a
    budget of more turns than that gives what a budget of
    [maxCallStackSize] turns gives. For a [kwa] loop the turns are counted
    while the counter is a number that is held exactly. *)
Theorem C6_loops_stop_at_the_bound
    (maxCallStackSize : Z) (ps pe : Position) (c : Context) :
  1 ≤ maxCallStackSize →
  let n := Z.to_nat maxCallStackSize in
  let error :=
    mkRTError (Some ps) (Some pe) "Max call stack size exceeded" (Some c) in
  (∀ fuel conditionNode bodyNode w vs w',
     (n ≤ fuel)%nat →
     whileIterations (visit fuel maxCallStackSize) n conditionNode bodyNode
       c w = Some (vs, w') →
     visit (S fuel) maxCallStackSize
       (WhileNode conditionNode bodyNode ps pe) c w
     = (Done (mkRTResult None (Some error)), w'))
  ∧ (∀ fuel varName startValueNode endValueNode stepValueNode bodyNode
       w start endValue step w3 vs w',
       (n ≤ fuel)%nat →
       forBounds (visit fuel maxCallStackSize) startValueNode endValueNode
         stepValueNode c w = Some (start, endValue, step, w3) →
       forIterations (visit fuel maxCallStackSize) n varName bodyNode c
         step endValue start w3 = Some (vs, w') →
       visit (S fuel) maxCallStackSize
         (ForNode varName startValueNode endValueNode stepValueNode
            bodyNode ps pe) c w
       = (Done (mkRTResult None (Some error)), w'))
  ∧ (∀ visit budget conditionNode bodyNode w,
       (n ≤ budget)%nat →
       visitWhileNode visit maxCallStackSize budget conditionNode bodyNode
         ps pe c w
       = visitWhileNode visit maxCallStackSize n conditionNode bodyNode
           ps pe c w)
  ∧ (∀ visit budget varName startValueNode endValueNode stepValueNode
       bodyNode w,
       (n ≤ budget)%nat →
       visitForNode visit maxCallStackSize budget varName startValueNode
         endValueNode stepValueNode bodyNode ps pe c w
       = visitForNode visit maxCallStackSize n varName startValueNode
           endValueNode stepValueNode bodyNode ps pe c w).
Proof.
  intros Hmax n error. repeat split.
  - intros fuel conditionNode bodyNode w vs w' Hfuel Hiter.
    cbn [visit]. unfold visitWhileNode.
    apply (whileLoop_hits_bound _ _ _ _ _ _ _ n) with (vs := vs);
      [reflexivity | unfold n; lia .. | exact Hiter].
  - intros fuel varName startValueNode endValueNode stepValueNode bodyNode
      w start endValue step w3 vs w' Hfuel Hbounds Hiter.
    cbn [visit].
    rewrite (visitForNode_bounds _ _ _ _ _ _ _ _ _ _ _ _ _ _ _ _ Hbounds).
    apply (forLoop_hits_bound _ _ _ _ _ _ _ _ _ n) with (vs := vs);
      [reflexivity | unfold n; lia .. | exact Hiter].
  - intros visit budget conditionNode bodyNode w Hbudget.
    unfold visitWhileNode. apply whileLoop_budget; unfold n; lia.
  - intros visit budget varName startValueNode endValueNode stepValueNode
      bodyNode w Hbudget.
    apply visitForNode_budget; unfold n; lia.
Qed.

(** ** [populateArgs] of the stand-alone base class *)

Lemma setContext_again c v : setContext c (setContext c v) = setContext c v.
Proof. by destruct v. Qed.

(** The first loop, on arguments none of which is null: the arguments that
    have a parameter are pushed, re-contexted, and the shared Null has been
    re-contexted when a parameter stands after the last argument. *)
Lemma bindNamed_given ec own vs :
  ∀ argNames i nullValue allArgs w,
    ∃ w1,
      BaseFunction.bindNamed i argNames (Some <$> vs) ec own nullValue
        allArgs w
      = (Done (allArgs
               ++ ((λ v, Some (setContext (Some ec) v))
                     <$> take (length argNames) (drop i vs)),
               if (length vs `max` i <? i + length argNames)%nat then
                 setContext (Some ec) <$> nullValue
               else nullValue), w1)
      ∧ length (tables w1) = length (tables w).
Proof.
  induction argNames as [| argName argNames IH];
    intros i nullValue allArgs w.
  { exists w. cbn [BaseFunction.bindNamed length take fmap list_fmap].
    rewrite app_nil_r.
    replace (length vs `max` i <? i + 0)%nat with false
      by (symmetry; apply Nat.ltb_ge; lia).
    done. }
  cbn [BaseFunction.bindNamed length]. rewrite length_fmap.
  destruct (vs !! i) as [v |] eqn:Hv.
  - assert (i < length vs)%nat as Hlt by (by eapply lookup_lt_Some).
    replace (i <? length vs)%nat with true
      by (symmetry; by apply Nat.ltb_lt).
    rewrite list_lookup_fmap, Hv. cbn [fmap option_fmap option_map mjoin
      option_join].
    rewrite !bind_update.
    edestruct (IH (S i) nullValue) as (w1 & -> & Hlen).
    exists w1. split; [| by rewrite Hlen, !set_length].
    rewrite (drop_S _ _ _ Hv). cbn [take fmap list_fmap].
    rewrite <- app_assoc.
    replace (length vs `max` S i)%nat with (length vs `max` i)%nat by lia.
    by replace (S i + length argNames)%nat
      with (i + S (length argNames))%nat by lia.
  - assert (length vs ≤ i)%nat as Hge by (by apply lookup_ge_None).
    replace (i <? length vs)%nat with false
      by (symmetry; by apply Nat.ltb_ge).
    rewrite list_lookup_fmap, Hv. cbn [fmap option_fmap option_map mjoin
      option_join].
    rewrite (drop_ge vs i) by done.
    replace (length vs `max` i <? i + S (length argNames))%nat with true
      by (symmetry; apply Nat.ltb_lt; lia).
    destruct nullValue as [null |].
    + rewrite !bind_update.
      edestruct (IH (S i) (Some (setContext (Some ec) null)))
        as (w1 & -> & Hlen).
      exists w1. split; [| by rewrite Hlen, !set_length].
      rewrite (drop_ge vs (S i)) by lia. rewrite !take_nil.
      cbn [fmap option_fmap option_map]. rewrite setContext_again.
      by destruct (_ <? _)%nat.
    + edestruct (IH (S i) None) as (w1 & -> & Hlen).
      exists w1. split; [| done].
      rewrite (drop_ge vs (S i)) by lia. rewrite !take_nil.
      by destruct (_ <? _)%nat.
Qed.

Lemma pushGiven_given vs :
  ∀ n i allArgs,
    (length vs - i ≤ n)%nat →
    BaseFunction.pushGiven n i (Some <$> vs) allArgs
    = allArgs ++ (Some <$> drop i vs).
Proof.
  induction n as [| n IH]; intros i allArgs Hn.
  { cbn. rewrite drop_ge by lia. by rewrite app_nil_r. }
  cbn [BaseFunction.pushGiven]. rewrite length_fmap.
  destruct (vs !! i) as [v |] eqn:Hv.
  - assert (i < length vs)%nat as Hlt by (by eapply lookup_lt_Some).
    replace (i <? length vs)%nat with true
      by (symmetry; by apply Nat.ltb_lt).
    rewrite list_lookup_fmap, Hv. cbn [fmap option_fmap option_map mjoin
      option_join].
    rewrite IH by lia. rewrite (drop_S _ _ _ Hv). cbn [fmap list_fmap].
    by rewrite <- app_assoc.
  - assert (length vs ≤ i)%nat as Hge by (by apply lookup_ge_None).
    replace (i <? length vs)%nat with false
      by (symmetry; by apply Nat.ltb_ge).
    rewrite drop_ge by done. by rewrite app_nil_r.
Qed.

(** The stand-alone class does what the class next to the interpreter
    leaves out: its [populateArgs] binds [__hoja], in the symbol table of
    the execution context, to a new List of all the arguments given (the
    ones that have a parameter carry the execution context). It hands
    back the shared Null as it has become. *)
Lemma BaseFunction_populateArgs_binds_hoja
    (own : TableId) (argNames : option (list string)) (vs : list SWValue)
    (ec : Context) (nullType : bool) (NULL : SWValue) (w : World) :
  is_Some (tables w !! symbolTable ec) →
  let n := length (default [] argNames) in
  ∃ w',
    BaseFunction.populateArgs own argNames (Some <$> vs) ec nullType NULL w
    = (Done
         (success newRTResult
            (Some (nullAfter ec nullType n (length vs) NULL))), w')
    ∧ ownBinding (symbolTable ec) "__hoja" w'
      = Some (Some (SWList
                      (((λ v, Some (setContext (Some ec) v)) <$> take n vs)
                       ++ (Some <$> drop n vs)) fresh)).
Proof.
  intros Htable n. unfold BaseFunction.populateArgs.
  edestruct (bindNamed_given ec own vs (default [] argNames) 0
               (if nullType then Some NULL else None) [] w)
    as (w1 & Hbind & Hlen).
  rewrite drop_0, app_nil_l in Hbind. fold n in Hbind.
  rewrite (bind_Done _ _ _ _ _ Hbind), !bind_update.
  set (after := if nullType then default NULL _ else NULL).
  assert (after = nullAfter ec nullType n (length vs) NULL) as ->.
  { unfold after, nullAfter.
    replace (length vs `max` 0 <? 0 + n)%nat with (length vs <? n)%nat
      by (f_equal; lia).
    destruct nullType; [| done]. by destruct (length vs <? n)%nat. }
  eexists. split; [reflexivity |].
  assert (is_Some (tables w1 !! symbolTable ec)) as Htable1.
  { apply lookup_lt_is_Some. rewrite Hlen. by apply lookup_lt_is_Some. }
  rewrite pushGiven_given by (rewrite !length_fmap; lia).
  rewrite length_fmap, length_take.
  replace (drop (n `min` length vs) vs) with (drop n vs).
  2:{ destruct (decide (n ≤ length vs)%nat).
      - by rewrite Nat.min_l by done.
      - rewrite Nat.min_r by lia. by rewrite !drop_ge by lia. }
  destruct (decide (own = symbolTable ec)) as [-> | Hne].
  - apply ownBinding_set_eq. by apply set_keeps_table.
  - rewrite ownBinding_set_ne by auto. by apply ownBinding_set_eq.
Qed.

End Properties.

(** * Further properties *)

Section FurtherProperties.
Context `{MissingClasses}.

(** ** The store only grows *)

Lemma continues_refl w : continues w w.
Proof. repeat split; eauto. Qed.

Lemma continues_trans w1 w2 w3 :
  continues w1 w2 → continues w2 w3 → continues w1 w3.
Proof.
  intros (Ht1 & Ho1 & Hi1) (Ht2 & Ho2 & Hi2). repeat split.
  - intros t tb Htb.
    destruct (Ht1 t tb Htb) as (tb2 & Htb2 & Hp2 & Hd2).
    destruct (Ht2 t tb2 Htb2) as (tb3 & Htb3 & Hp3 & Hd3).
    exists tb3. repeat split; [done | congruence | set_solver].
  - by etrans.
  - by etrans.
Qed.

Lemma continues_set t name v w : continues w (set t name v w).
Proof.
  repeat split; try done.
  intros t' tb Htb. unfold set; cbn [tables].
  destruct (decide (t = t')) as [<- | Hne].
  - rewrite list_lookup_alter_eq, Htb. eexists. split; [done |].
    split; [done |]. cbn [symbols]. rewrite dom_insert. set_solver.
  - rewrite list_lookup_alter_ne by done. eauto.
Qed.

Lemma continues_tables ts w :
  continues w (mkWorld (tables w ++ ts) (output w) (input w)).
Proof.
  repeat split; try done.
  intros t tb Htb. exists tb. split; [| done].
  cbn [tables]. by apply lookup_app_l_Some.
Qed.

Lemma continues_output events w :
  continues w (mkWorld (tables w) (output w ++ events) (input w)).
Proof.
  repeat split; eauto. cbn [output]. by apply prefix_app_r.
Qed.

Lemma growing_ret {A} (a : A) : growing (ret a).
Proof. intros w x w' [= <- <-]. apply continues_refl. Qed.

Lemma growing_throw {A} e : growing (@throw A e).
Proof. intros w x w' [= <- <-]. apply continues_refl. Qed.

Lemma growing_unsupported {A} why : growing (@unsupported A why).
Proof. intros w x w' [= <- <-]. apply continues_refl. Qed.

Lemma growing_outOfFuel {A} : growing (@outOfFuel A).
Proof. intros w x w' [= <- <-]. apply continues_refl. Qed.

Lemma growing_read {A} (f : World → A) : growing (read f).
Proof. intros w x w' [= <- <-]. apply continues_refl. Qed.

Lemma growing_update f : (∀ w, continues w (f w)) → growing (update f).
Proof. intros Hf w x w' [= <- <-]. apply Hf. Qed.

Lemma growing_bind {A B} (m : Eval A) (k : A → Eval B) :
  growing m → (∀ a, growing (k a)) → growing (bind m k).
Proof.
  intros Hm Hk w x w'. unfold bind.
  destruct (m w) as [[a | e | why |] w1] eqn:Hmw.
  - intros Hkw. eapply continues_trans; [by eapply Hm | by eapply Hk].
  - intros [= <- <-]. by eapply Hm.
  - intros [= <- <-]. by eapply Hm.
  - intros [= <- <-]. by eapply Hm.
Qed.

Lemma growing_newSymbolTable p : growing (newSymbolTable p).
Proof. intros w x w' [= <- <-]. apply continues_tables. Qed.

Lemma growing_print text : growing (print text).
Proof. apply growing_update. intros w. apply continues_output. Qed.

Lemma growing_clear : growing clear.
Proof. apply growing_update. intros w. apply continues_output. Qed.

Lemma growing_prompt message : growing (prompt message).
Proof.
  intros w x w'. unfold prompt.
  destruct (input w) as [| line rest] eqn:Hin; intros [= <- <-].
  - repeat split; eauto; cbn; [by apply prefix_app_r | by rewrite Hin].
  - repeat split; eauto; cbn; [by apply prefix_app_r |].
    rewrite Hin. by apply suffix_cons_r.
Qed.

Lemma somaNambariLoop_grows message lines :
  ∀ out n lines' out',
    somaNambariLoop message lines out = (n, lines', out') →
    out `prefix_of` out' ∧ lines' `suffix_of` lines.
Proof.
  induction lines as [| line rest IH]; intros out n lines' out'; cbn.
  - intros [= <- <- <-]. split; [by apply prefix_app_r | done].
  - destruct (parseNumber line).
    + intros [= <- <- <-]. split; [by apply prefix_app_r |].
      by apply suffix_cons_r.
    + intros Hloop. apply IH in Hloop as [Hout Hin]. split.
      * etrans; [| exact Hout]. by apply prefix_app_r.
      * by apply suffix_cons_r.
Qed.

(** One step of a proof that a computation is [growing]. *)
Ltac grow :=
  repeat
    match goal with
    | |- growing (ret _) => apply growing_ret
    | |- growing (throw _) => apply growing_throw
    | |- growing nullDereference => apply growing_throw
    | |- growing (unsupported _) => apply growing_unsupported
    | |- growing outOfFuel => apply growing_outOfFuel
    | |- growing (read _) => apply growing_read
    | |- growing (update (set _ _ _)) =>
        apply growing_update; intros ?; apply continues_set
    | |- growing (newSymbolTable _) => apply growing_newSymbolTable
    | |- growing (print _) => apply growing_print
    | |- growing (prompt _) => apply growing_prompt
    | |- growing clear => apply growing_clear
    | |- growing (bind _ _) => apply growing_bind; [| intros ?]
    | |- growing (match ?x with _ => _ end) => destruct x
    | |- growing _ => solve [auto]
    end.

Lemma growing_deref v : growing (deref v).
Proof. unfold deref. grow. Qed.

Lemma growing_copy v : growing (copy v).
Proof. unfold copy. grow. Qed.

Lemma growing_numberValue v : growing (numberValue v).
Proof. unfold numberValue. grow. Qed.

Lemma growing_binaryMethod op this other :
  growing (binaryMethod op this other).
Proof. unfold binaryMethod. grow. Qed.

Lemma growing_notted this : growing (notted this).
Proof. unfold notted. grow. Qed.

Lemma growing_generateNewContext this : growing (generateNewContext this).
Proof. unfold generateNewContext. grow. Qed.

Lemma growing_populateArgsFrom argNames ec args :
  ∀ i, growing (populateArgsFrom i argNames args ec).
Proof.
  induction args as [| argValue rest IH]; intros i; cbn [populateArgsFrom].
  - grow.
  - apply growing_bind; [apply growing_deref | intros v]. grow.
Qed.

Lemma growing_checkAndPopulateArgs this argNames args ec :
  growing (checkAndPopulateArgs this argNames args ec).
Proof.
  unfold checkAndPopulateArgs, populateArgs.
  pose proof (growing_populateArgsFrom argNames ec args 0). grow.
Qed.

Lemma growing_somaNambariLoop message :
  growing
    (λ w,
       let '(n, lines, out) :=
         somaNambariLoop message (input w) (output w) in
       (Done n, mkWorld (tables w) out lines)).
Proof.
  intros w x w'.
  destruct (somaNambariLoop message (input w) (output w))
    as [[n lines] out] eqn:Hloop.
  intros [= <- <-].
  apply somaNambariLoop_grows in Hloop as [Hout Hin].
  repeat split; eauto.
Qed.

Lemma growing_builtinMethod name ec : growing (builtinMethod name ec).
Proof.
  pose proof growing_deref. pose proof growing_somaNambariLoop.
  destruct name; cbn [builtinMethod];
    unfold execute_andika, execute_soma, execute_somaNambari, execute_futa,
      execute_niNambari, execute_niJina, execute_niOrodha,
      execute_niShughuli, instanceCheck, execute_idadi;
    grow.
Qed.

Lemma growing_executeBuiltIn this name args :
  growing (executeBuiltIn this name args).
Proof.
  unfold executeBuiltIn, executeBuiltInIn.
  pose proof growing_generateNewContext.
  pose proof growing_checkAndPopulateArgs.
  pose proof growing_builtinMethod. grow.
Qed.

Section GrowingVisitors.
Variable visit : Node → Context → Eval RTResult.
Variable maxCallStackSize : Z.
Variable execute : SWValue → list ValRef → Eval RTResult.
Hypothesis visit_grows : ∀ node c, growing (visit node c).
Hypothesis execute_grows : ∀ this args, growing (execute this args).

Lemma growing_visitEach c nodes :
  ∀ res elements, growing (visitEach visit nodes c res elements).
Proof.
  induction nodes as [| node nodes IH]; intros res elements;
    cbn [visitEach]; grow.
Qed.

Lemma growing_visitCases c cases :
  ∀ res, growing (visitCases visit cases c res).
Proof.
  pose proof growing_deref.
  induction cases as [| [condition expr] cases IH]; intros res;
    cbn [visitCases]; grow.
Qed.

Lemma growing_forLoop varName bodyNode ps pe c step endValue budget :
  ∀ i calls res elements,
    growing
      (forLoop visit maxCallStackSize budget varName bodyNode ps pe c step
         endValue i calls res elements).
Proof.
  induction budget as [| budget IH]; intros i calls res elements;
    cbn [forLoop]; grow.
Qed.

Lemma growing_whileLoop conditionNode bodyNode ps pe c budget :
  ∀ calls res elements,
    growing
      (whileLoop visit maxCallStackSize budget conditionNode bodyNode ps pe
         c calls res elements).
Proof.
  pose proof growing_deref.
  induction budget as [| budget IH]; intros calls res elements;
    cbn [whileLoop]; grow.
Qed.

Lemma growing_visitor fuel node c :
  growing
    match node with
    | NumberNode value ps pe => visitNumberNode value ps pe c
    | StringNode value ps pe => visitStringNode value ps pe c
    | ListNode elementNodes ps pe => visitListNode visit elementNodes ps pe c
    | VarAccessNode varName ps pe => visitVarAccessNode varName ps pe c
    | VarAssignNode varName valueNode ps pe =>
        visitVarAssignNode visit varName valueNode c
    | BinOpNode leftNode opTok rightNode ps pe =>
        visitBinOpNode visit leftNode opTok rightNode ps pe c
    | UnaryOpNode opTok node ps pe =>
        visitUnaryOpNode visit opTok node ps pe c
    | IfNode cases elseCase ps pe => visitIfNode visit cases elseCase c
    | ForNode varName startValueNode endValueNode stepValueNode bodyNode
        ps pe =>
        visitForNode visit maxCallStackSize fuel varName startValueNode
          endValueNode stepValueNode bodyNode ps pe c
    | WhileNode conditionNode bodyNode ps pe =>
        visitWhileNode visit maxCallStackSize fuel conditionNode bodyNode
          ps pe c
    | FuncDefNode varName argNames bodyNode ps pe =>
        visitFuncDefNode varName argNames bodyNode ps pe c
    | CallNode nodeToCall argNodes ps pe =>
        visitCallNode visit execute nodeToCall argNodes ps pe c
    | OtherNode className => noVisitMethod className
    end.
Proof.
  pose proof growing_deref. pose proof growing_copy.
  pose proof growing_numberValue. pose proof growing_binaryMethod.
  pose proof growing_notted. pose proof growing_visitEach.
  pose proof growing_visitCases. pose proof growing_forLoop.
  pose proof growing_whileLoop.
  destruct node;
    unfold visitNumberNode, visitStringNode, visitListNode,
      visitVarAccessNode, visitVarAssignNode, visitBinOpNode,
      binaryDispatch, visitUnaryOpNode, unaryDispatch, visitIfNode,
      visitForNode, visitWhileNode, visitFuncDefNode, visitCallNode,
      returnFromCall, noVisitMethod;
    grow.
Qed.

End GrowingVisitors.

Lemma growing_execute visitWith this args :
  (∀ max node c, growing (visitWith max node c)) →
  growing (execute visitWith this args).
Proof.
  intros Hvisit.
  pose proof growing_generateNewContext.
  pose proof growing_checkAndPopulateArgs.
  pose proof growing_executeBuiltIn.
  destruct this; cbn [execute];
    unfold executeFunction, executeFunctionIn; grow.
Qed.

Lemma growing_visit fuel :
  ∀ maxCallStackSize node c, growing (visit fuel maxCallStackSize node c).
Proof.
  induction fuel as [| fuel IH]; intros maxCallStackSize node c.
  - cbn [visit]. grow.
  - cbn [visit]. apply growing_visitor; [by apply IH |].
    intros this args. by apply growing_execute.
Qed.

(** X1: whatever a visit does and however it ends (a result, an error, an
    exception), the store it leaves continues the store it started in: no
    symbol table is dropped or gets another parent, no name that was bound
    in a table becomes unbound ([remove] is never called), nothing written
    to the terminal is taken back. *)
Theorem X1_visit_only_grows_the_store
    (fuel : nat) (maxCallStackSize : Z) (node : Node) (c : Context)
    (w : World) :
  continues w (snd (visit fuel maxCallStackSize node c w)).
Proof.
  destruct (visit fuel maxCallStackSize node c w) as [x w'] eqn:Hvisit.
  by eapply growing_visit.
Qed.

(** ** Lists, arguments and cases are evaluated in order *)

Section InOrder.
Variable visit : Node → Context → Eval RTResult.

Lemma succeedAll_length nodes c :
  ∀ w vs w', succeedAll visit nodes c w = Some (vs, w') →
             length vs = length nodes.
Proof.
  induction nodes as [| node nodes IH]; intros w vs w'; cbn [succeedAll].
  - by intros [= <- <-].
  - destruct (succeeds visit node c w) as [[v w1] |]; [| done].
    destruct (succeedAll visit nodes c w1) as [[vs' w2] |] eqn:Hrest;
      [| done].
    intros [= <- <-]. cbn [length]. f_equal. by eapply IH.
Qed.

Lemma visitEach_succeedAll nodes c :
  ∀ res elements w vs w',
    hasError res = false →
    succeedAll visit nodes c w = Some (vs, w') →
    visitEach visit nodes c res elements w
    = (Done (Next (res, elements ++ vs)), w').
Proof.
  induction nodes as [| node nodes IH]; intros res elements w vs w' Hres;
    cbn [succeedAll visitEach].
  - intros [= <- <-]. by rewrite app_nil_r.
  - destruct (succeeds visit node c w) as [[v w1] |] eqn:Hnode; [| done].
    destruct (succeedAll visit nodes c w1) as [[vs' w2] |] eqn:Hrest;
      [| done].
    intros [= <- <-].
    apply succeeds_inv in Hnode as (r & Hv & He & <-).
    rewrite (bind_Done _ _ _ _ _ Hv), (register_ok _ _ He), Hres.
    rewrite (IH _ _ _ _ _ Hres Hrest). by rewrite <- app_assoc.
Qed.

Lemma visitEach_first_error before failing after c :
  ∀ res elements w vs w1 e w2,
    hasError res = false →
    succeedAll visit before c w = Some (vs, w1) →
    visit failing c w1 = (Done (failure newRTResult e), w2) →
    visitEach visit (before ++ failing :: after) c res elements w
    = (Done (Return (mkRTResult (resValue res) (Some e))), w2).
Proof.
  induction before as [| node before IH];
    intros res elements w vs w1 e w2 Hres; cbn [succeedAll app visitEach].
  - intros [= <- <-] Hfail.
    by rewrite (bind_Done _ _ _ _ _ Hfail), register_failure.
  - destruct (succeeds visit node c w) as [[v w0] |] eqn:Hnode; [| done].
    destruct (succeedAll visit before c w0) as [[vs' w0'] |] eqn:Hrest;
      [| done].
    intros [= <- <-] Hfail.
    apply succeeds_inv in Hnode as (r & Hv & He & <-).
    rewrite (bind_Done _ _ _ _ _ Hv), (register_ok _ _ He), Hres.
    by eapply IH.
Qed.

(** X2: [visitListNode] visits the element nodes from left to right, each
    in the store the one before has left. When none of them fails, the
    value is a List with exactly one element per node, the values in that
    order, stamped with the position of the node and with the context. *)
Theorem X2_list_values_in_order
    (elementNodes : list Node) (ps pe : Position) (c : Context)
    (vs : list ValRef) (w w' : World) :
  succeedAll visit elementNodes c w = Some (vs, w') →
  visitListNode visit elementNodes ps pe c w
  = (Done
       (success newRTResult
          (Some (SWList vs (mkStamp (Some ps) (Some pe) (Some c))))), w')
  ∧ length vs = length elementNodes.
Proof.
  intros Hall. split; [| by eapply succeedAll_length].
  unfold visitListNode.
  by rewrite (bind_Done _ _ _ _ _
                (visitEach_succeedAll _ _ newRTResult [] _ _ _ eq_refl Hall)).
Qed.

(** X3: the first element of a list literal that fails ends the visit with
    its error: the elements after it are not visited, whatever they are,
    and the store is the one the failing element has left. *)
Theorem X3_list_stops_at_first_error
    (before after : list Node) (failing : Node) (ps pe : Position)
    (c : Context) (vs : list ValRef) (e : RTError) (w w1 w2 : World) :
  succeedAll visit before c w = Some (vs, w1) →
  visit failing c w1 = (Done (failure newRTResult e), w2) →
  visitListNode visit (before ++ failing :: after) ps pe c w
  = (Done (failure newRTResult e), w2).
Proof.
  intros Hbefore Hfail. unfold visitListNode.
  by rewrite (bind_Done _ _ _ _ _
                (visitEach_first_error _ _ after _ newRTResult [] _ _ _ _ _
                   eq_refl Hbefore Hfail)).
Qed.

End InOrder.

(** ** Calls: the order of the steps *)

(** A call through a name that is bound to a function: the arguments are
    visited, then the stamped copy of the function is executed. *)
Lemma visit_call_named fuel maxCallStackSize name p1 p2 ps pe argNodes c f
    w :
  get (symbolTable c) name w = Some f →
  isFunction f = true →
  visit (S (S fuel)) maxCallStackSize
    (CallNode (VarAccessNode name p1 p2) argNodes ps pe) c w
  = bind
      (visitEach (visit (S fuel) maxCallStackSize) argNodes c newRTResult [])
      (λ flow,
         match flow with
         | Return res => ret res
         | Next (res, args) =>
             bind (execute (visit (S fuel)) (restamped f ps pe c) args)
               (returnFromCall ps pe c res)
         end) w.
Proof.
  intros Hget Hf. cbn [visit]. unfold visitCallNode.
  rewrite (bind_Done _ _ _ _ _
             (visitVarAccessNode_function name p1 p2 c f w Hget Hf)).
  rewrite register_success.
  cbn [hasError resError newRTResult deref].
  rewrite bind_ret.
  pose proof (copy_restamped f p1 p2 ps pe c w Hf) as Hcopy.
  unfold bind at 1 in Hcopy. unfold bind at 1.
  destruct (copy (restamped f p1 p2 c) w) as [[v | | |] w0];
    try discriminate Hcopy.
  by injection Hcopy as -> ->.
Qed.

(** X4: in a call, an argument that fails ends the call with its error.
    The arguments after it are not visited and the function is not
    executed: no execution context is made, and the store is the one the
    failing argument has left. *)
Theorem X4_call_stops_at_failing_argument
    (fuel : nat) (maxCallStackSize : Z) (name : string)
    (p1 p2 ps pe : Position) (before after : list Node) (failing : Node)
    (c : Context) (f : SWValue) (vs : list ValRef) (e : RTError)
    (w w1 w2 : World) :
  get (symbolTable c) name w = Some f →
  isFunction f = true →
  succeedAll (visit (S fuel) maxCallStackSize) before c w = Some (vs, w1) →
  visit (S fuel) maxCallStackSize failing c w1
  = (Done (failure newRTResult e), w2) →
  visit (S (S fuel)) maxCallStackSize
    (CallNode (VarAccessNode name p1 p2) (before ++ failing :: after) ps pe)
    c w
  = (Done (failure newRTResult e), w2).
Proof.
  intros Hget Hf Hbefore Hfail.
  rewrite (visit_call_named _ _ _ _ _ _ _ _ _ _ _ Hget Hf).
  by rewrite (bind_Done _ _ _ _ _
                (visitEach_first_error _ _ _ after _ newRTResult [] _ _ _ _
                   _ eq_refl Hbefore Hfail)).
Qed.

(** X5: the number of arguments is checked only once all of them have
    been evaluated. A call with the wrong number of arguments first visits
    every argument, so what the arguments do to the store stays done, and
    then fails with the arity error, at the position of the call. *)
Theorem X5_arity_is_checked_after_the_arguments
    (fuel : nat) (maxCallStackSize : Z) (name : string)
    (p1 p2 ps pe : Position) (argNodes : list Node) (c : Context)
    (f : SWValue) (vs : list ValRef) (w w1 : World) :
  get (symbolTable c) name w = Some f →
  isFunction f = true →
  succeedAll (visit (S fuel) maxCallStackSize) argNodes c w = Some (vs, w1) →
  length argNodes ≠ length (paramNames f) →
  visit (S (S fuel)) maxCallStackSize
    (CallNode (VarAccessNode name p1 p2) argNodes ps pe) c w
  = (Done
       (failure newRTResult
          (mkRTError (Some ps) (Some pe)
             (if (length (paramNames f) <? length argNodes)%nat then
                pretty (length argNodes - length (paramNames f))%nat
                  +:+ " too many args passed into "
                  +:+ nameOf (restamped f ps pe c)
              else
                pretty (length (paramNames f) - length argNodes)%nat
                  +:+ " too few args passed into "
                  +:+ nameOf (restamped f ps pe c))
             (Some c))),
     withNewTable ∅ (Some (symbolTable c)) w1).
Proof.
  intros Hget Hf Hargs Hne.
  rewrite (visit_call_named _ _ _ _ _ _ _ _ _ _ _ Hget Hf).
  rewrite (bind_Done _ _ _ _ _
             (visitEach_succeedAll _ _ _ newRTResult [] _ _ _ eq_refl Hargs)).
  cbn [app].
  rewrite <- (succeedAll_length _ _ _ _ _ _ Hargs) in *.
  assert (paramNames (restamped f ps pe c) = paramNames f) as Hparams
    by (by destruct f).
  assert (execute (visit (S fuel)) (restamped f ps pe c) vs w1
          = (Done
               (checkArgs (restamped f ps pe c) (paramNames f) vs),
             withNewTable ∅ (Some (symbolTable c)) w1)) as Hexec.
  { rewrite (execute_function _ _ _ _ _
               (restamped_isFunction _ ps pe c Hf)
               (restamped_context _ ps pe c Hf)).
    destruct f as [| | | | | | fname bodyNode argNames st | bname st];
      try discriminate Hf; cbn [restamped executeIn paramNames] in *.
    - unfold executeFunctionIn, checkAndPopulateArgs.
      by rewrite (checkArgs_mismatch _ _ _ Hne).
    - unfold executeBuiltInIn, checkAndPopulateArgs.
      by rewrite (checkArgs_mismatch _ _ _ Hne). }
  rewrite (bind_Done _ _ _ _ _ Hexec), (checkArgs_mismatch _ _ _ Hne).
  unfold returnFromCall. rewrite register_failure.
  by destruct f.
Qed.

(** ** Binding the parameters *)

Lemma populateArgsFrom_app vs rest argNames ec p w :
  symbolTable ec = length (tables w) →
  ∀ i bound,
    populateArgsFrom i argNames ((Some <$> vs) ++ rest) ec
      (withNewTable bound p w)
    = populateArgsFrom (i + length vs) argNames rest ec
        (withNewTable (boundFrom i argNames vs ec bound) p w).
Proof.
  intros Hec.
  induction vs as [| v vs IH]; intros i bound.
  { cbn. by rewrite Nat.add_0_r. }
  cbn [fmap list_fmap app populateArgsFrom boundFrom deref length].
  rewrite bind_ret, bind_update, Hec, set_withNewTable, IH.
  by replace (S i + length vs)%nat with (i + S (length vs))%nat by lia.
Qed.

(** X6: a null among the arguments (the value of an [IfNode] none of whose
    cases held) passes the arity check and then makes [populateArgs]
    throw: the parameters before it have been bound in the new table, the
    body is never run. *)
Theorem X6_null_argument_throws
    (visitWith : Z → Node → Context → Eval RTResult) (this : SWValue)
    (c : Context) (before : list SWValue) (after : list ValRef)
    (w : World) :
  isFunction this = true →
  context (stamp this) = Some c →
  length ((Some <$> before) ++ None :: after) = length (paramNames this) →
  let executionContext :=
    mkContext (nameOf this) (Some c) (posStart (stamp this))
      (length (tables w)) in
  execute visitWith this ((Some <$> before) ++ None :: after) w
  = (Throw (TypeError "Cannot read properties of null"),
     withNewTable (boundFrom 0 (paramNames this) before executionContext ∅)
       (Some (symbolTable c)) w).
Proof.
  intros Hf Hc Hlen ec. rewrite (execute_function _ _ _ _ _ Hf Hc).
  fold ec.
  assert (∀ argNames,
            length ((Some <$> before) ++ None :: after) = length argNames →
            checkAndPopulateArgs this argNames
              ((Some <$> before) ++ None :: after) ec
              (withNewTable ∅ (Some (symbolTable c)) w)
            = (Throw (TypeError "Cannot read properties of null"),
               withNewTable (boundFrom 0 argNames before ec ∅)
                 (Some (symbolTable c)) w)) as Hpopulate.
  { intros argNames Harity. unfold checkAndPopulateArgs.
    rewrite (checkArgs_match _ _ _ Harity).
    cbn [register success resError resValue newRTResult hasError].
    unfold populateArgs.
    by rewrite (bind_Throw _ _ _ _ _
                  (eq_trans
                     (populateArgsFrom_app before (None :: after) argNames
                        ec _ w eq_refl 0 ∅) eq_refl)). }
  destruct this; try discriminate Hf; cbn [executeIn paramNames] in *.
  - unfold executeFunctionIn.
    by rewrite (bind_Throw _ _ _ _ _ (Hpopulate _ Hlen)).
  - unfold executeBuiltInIn.
    by rewrite (bind_Throw _ _ _ _ _ (Hpopulate _ Hlen)).
Qed.




(** ** The cases of an [IfNode] *)

Section Cases.
Variable visit : Node → Context → Eval RTResult.

Lemma visitCases_noneHolds before after c :
  ∀ res w w1,
    hasError res = false →
    noneHolds visit before c w = Some w1 →
    visitCases visit (before ++ after) c res w
    = visitCases visit after c res w1.
Proof.
  induction before as [| [condition expr] before IH]; intros res w w1 Hres;
    cbn [noneHolds app visitCases].
  - by intros [= <-].
  - destruct (succeeds visit condition c w) as [[[cv |] w0] |] eqn:Hc;
      try done.
    destruct (isTrue cv) eqn:Htrue; [done |]. intros Hrest.
    apply succeeds_inv in Hc as (r & Hv & He & Hr).
    rewrite (bind_Done _ _ _ _ _ Hv), (register_ok _ _ He), Hres, Hr.
    cbn [deref]. rewrite bind_ret, Htrue. by apply IH.
Qed.

(** X8: [visitIfNode] tries the cases in order. The first case whose
    condition is truthy gives the value (or the error) of its body; the
    conditions and bodies of the cases after it, and the else branch, are
    not evaluated. *)
Theorem X8_first_truthy_case_wins
    (before after : list (Node * Node)) (condition expr : Node)
    (elseCase : option Node) (c : Context) (conditionValue : SWValue)
    (r : RTResult) (w w1 w2 w3 : World) :
  noneHolds visit before c w = Some w1 →
  succeeds visit condition c w1 = Some (Some conditionValue, w2) →
  isTrue conditionValue = true →
  visit expr c w2 = (Done r, w3) →
  visitIfNode visit (before ++ (condition, expr) :: after) elseCase c w
  = (Done
       match resError r with
       | Some e => failure newRTResult e
       | None => success newRTResult (resValue r)
       end, w3).
Proof.
  intros Hnone Hc Htrue Hexpr. unfold visitIfNode.
  apply succeeds_inv in Hc as (rc & Hv & He & Hr).
  assert (visitCases visit (before ++ (condition, expr) :: after) c
            newRTResult w
          = (Done
               (Return
                  match resError r with
                  | Some e => failure newRTResult e
                  | None => success newRTResult (resValue r)
                  end), w3)) as Hcases.
  { rewrite (visitCases_noneHolds _ _ _ newRTResult _ _ eq_refl Hnone).
    cbn [visitCases].
    rewrite (bind_Done _ _ _ _ _ Hv), (register_ok _ _ He), Hr.
    cbn [hasError resError newRTResult deref].
    rewrite bind_ret, Htrue, (bind_Done _ _ _ _ _ Hexpr).
    unfold register. by destruct (resError r). }
  by rewrite (bind_Done _ _ _ _ _ Hcases).
Qed.

(** X9: when no condition is truthy, an [IfNode] with an else branch
    hands back what the else branch gives, and one without succeeds with
    the JavaScript [null], not with a Null value. *)
Theorem X9_no_case_holds
    (cases : list (Node * Node)) (elseCase : option Node) (c : Context)
    (w w1 : World) :
  noneHolds visit cases c w = Some w1 →
  visitIfNode visit cases elseCase c w
  = match elseCase with
    | Some elseNode => bind (visit elseNode c) handBack w1
    | None => (Done (success newRTResult None), w1)
    end.
Proof.
  intros Hnone. unfold visitIfNode.
  erewrite (bind_Done (visitCases _ _ _ _)).
  2:{ rewrite <- (app_nil_r cases).
      by rewrite (visitCases_noneHolds _ _ _ newRTResult _ _ eq_refl Hnone). }
  by destruct elseCase.
Qed.

(** ** Operators on function values *)

(** X10: no binary operator is defined on a function value. With a
    function on the left, both operands are evaluated and then every one
    of the thirteen operators, comparison for equality included, fails
    with "Illegal operation", from the start of the function value to the
    end of the right operand. *)
Theorem X10_binary_operators_reject_functions
    (leftNode rightNode : Node) (opTok : TokenType) (ps pe : Position)
    (c : Context) (f : SWValue) (r : RTResult) (w w1 w2 : World) :
  isFunction f = true →
  opTok ≠ NOT →
  visit leftNode c w = (Done (success newRTResult (Some f)), w1) →
  visit rightNode c w1 = (Done r, w2) →
  resError r = None →
  visitBinOpNode visit leftNode opTok rightNode ps pe c w
  = (Done
       (failure newRTResult
          (mkRTError (posStart (stamp f))
             (posEnd (stamp (default f (resValue r))))
             "Illegal operation" (context (stamp f)))), w2).
Proof.
  intros Hf Hop Hleft Hright Hok. unfold visitBinOpNode.
  rewrite (bind_Done _ _ _ _ _ Hleft), register_success.
  cbn [hasError resError newRTResult].
  rewrite (bind_Done _ _ _ _ _ Hright), (register_ok _ _ Hok).
  cbn [hasError resError newRTResult].
  assert (binaryDispatch opTok (Some f) (resValue r) w2
          = (Done (None, Some (illegalOperation f (resValue r))), w2))
    as Hdispatch.
  { destruct opTok; try done; cbn [binaryDispatch deref];
      rewrite bind_ret; unfold binaryMethod;
      by rewrite (isFunction_inSource _ Hf). }
  rewrite (bind_Done _ _ _ _ _ Hdispatch).
  unfold illegalOperation. by destruct (resValue r).
Qed.

(** X11: unary minus on a function value fails with "Illegal operation"
    too (it multiplies by a Number made on the spot), and the end position
    of the error is null, because that Number has no position. *)
Theorem X11_unary_minus_rejects_functions
    (node : Node) (ps pe : Position) (c : Context) (f : SWValue)
    (w w1 : World) :
  isFunction f = true →
  visit node c w = (Done (success newRTResult (Some f)), w1) →
  visitUnaryOpNode visit MINUS node ps pe c w
  = (Done
       (failure newRTResult
          (mkRTError (posStart (stamp f)) None "Illegal operation"
             (context (stamp f)))), w1).
Proof.
  intros Hf Hnode. unfold visitUnaryOpNode.
  rewrite (bind_Done _ _ _ _ _ Hnode), register_success.
  cbn [hasError resError newRTResult].
  assert (unaryDispatch MINUS (Some f) w1
          = (Done (None, Some (illegalOperation f
                                 (Some (SWNumber (-1) fresh)))), w1))
    as Hdispatch.
  { cbn [unaryDispatch deref]. rewrite bind_ret. unfold binaryMethod.
    by rewrite (isFunction_inSource _ Hf). }
  by rewrite (bind_Done _ _ _ _ _ Hdispatch).
Qed.

End Cases.

(** ** The built-in functions *)

(** A built-in function of one parameter, called with one value: the
    handler runs in a new table that binds the parameter, and reads the
    argument back from it. *)
Lemma builtin_sees_argument visitWith name st c p v w :
  context st = Some c →
  builtinArgNames name = [p] →
  let ec :=
    mkContext (nameOf (SWBuiltInFunction name st)) (Some c) (posStart st)
      (length (tables w)) in
  let w' :=
    withNewTable {[p := Some (setContext (Some ec) v)]}
      (Some (symbolTable c)) w in
  execute visitWith (SWBuiltInFunction name st) [Some v] w
  = bind (builtinMethod name ec) handBack w'
  ∧ get (symbolTable ec) p w' = Some (setContext (Some ec) v).
Proof.
  intros Hc Hp ec w'. split.
  - change [Some v] with (Some <$> [v]).
    rewrite (execute_runs_body visitWith (SWBuiltInFunction name st) c [v] w
               eq_refl Hc); [| by cbn [paramNames]; rewrite Hp].
    cbn [paramNames bodyOrHandler stamp boundFrom]. rewrite Hp.
    cbn [lookup list_lookup default]. by rewrite insert_empty.
  - apply get_ownBinding. unfold w'.
    replace (symbolTable ec) with (length (tables w)) by reflexivity.
    rewrite ownBinding_withNewTable. apply lookup_singleton_eq.
Qed.

Lemma prompt_takes_a_line message w :
  prompt message w
  = (Done (head (input w)),
     mkWorld (tables w) (output w ++ [Prompted message]) (tail (input w))).
Proof. unfold prompt. by destruct (input w). Qed.

Lemma somaNambariLoop_retries message rest :
  ∀ bad out,
    Forall (λ line, parseNumber line = None) bad →
    somaNambariLoop message (bad ++ rest) out
    = somaNambariLoop message rest
        (out ++ concat ((λ _, [Prompted message;
                               Printed "Jibu yako si nambari. Jaribu tena."])
                        <$> bad)).
Proof.
  induction bad as [| line bad IH]; intros out Hbad;
    cbn [app somaNambariLoop fmap list_fmap concat].
  - by rewrite app_nil_r.
  - inversion Hbad as [| ? ? Hline Hrest]; subst. rewrite Hline.
    rewrite (IH _ Hrest). by rewrite <- app_assoc.
Qed.

(** X12: each of the four type checks answers a Boolean and never fails:
    [niNambari], [niJina], [niOrodha] and [niShughuli] are true of exactly
    the Numbers, the Strings, the Lists and the function values (defined or
    built in), and false of everything else. They print nothing and read
    nothing. The classes of Numbers, Strings, Booleans, Lists and Null are
    taken as the data model has them, none a subclass of another; that no
    function value is a Number, a String or a List is in the source. *)
Theorem X12_type_checks
    (visitWith : Z → Node → Context → Eval RTResult) (name : BuiltinName)
    (st : Stamp) (c : Context) (v : SWValue) (w : World) :
  context st = Some c →
  name ∈ [niNambari; niJina; niOrodha; niShughuli] →
  let executionContext :=
    mkContext (builtinName name) (Some c) (posStart st)
      (length (tables w)) in
  execute visitWith (SWBuiltInFunction name st) [Some v] w
  = (Done
       (success newRTResult
          (Some (SWBoolean
                   match name, v with
                   | niNambari, SWNumber _ _ => true
                   | niJina, SWString _ _ => true
                   | niOrodha, SWList _ _ => true
                   | niShughuli, SWFunction _ _ _ _ => true
                   | niShughuli, SWBuiltInFunction _ _ => true
                   | _, _ => false
                   end fresh))),
     withNewTable {["value" := Some (setContext (Some executionContext) v)]}
       (Some (symbolTable c)) w).
Proof.
  intros Hc Hname ec.
  assert (builtinArgNames name = ["value"]) as Hp.
  { repeat (apply elem_of_cons in Hname as [-> | Hname]; [done |]).
    by apply elem_of_nil in Hname. }
  destruct (builtin_sees_argument visitWith name st c "value" v w Hc Hp)
    as [Hrun Hget].
  cbn [nameOf stamp] in Hrun, Hget. fold ec in Hrun, Hget.
  rewrite Hrun.
  repeat (apply elem_of_cons in Hname as [-> | Hname];
          [cbn [builtinMethod];
           unfold execute_niNambari, execute_niJina, execute_niOrodha,
             execute_niShughuli, instanceCheck;
           rewrite (bind_Done _ _ _ _ _ (bind_read _ _ _)) |]).
  all: try by apply elem_of_nil in Hname.
  all: rewrite Hget; by destruct v.
Qed.


(** X14: [soma] called with one value never fails: it shows the text of
    the value as the prompt once, takes one line of the input and answers
    it as a String; at the end of the input it answers the empty String. *)
Theorem X14_soma_reads_one_line
    (visitWith : Z → Node → Context → Eval RTResult) (st : Stamp)
    (c : Context) (v : SWValue) (w : World) :
  context st = Some c →
  let executionContext :=
    mkContext "soma" (Some c) (posStart st) (length (tables w)) in
  let message := setContext (Some executionContext) v in
  execute visitWith (SWBuiltInFunction soma st) [Some v] w
  = (Done
       (success newRTResult
          (Some (SWString (default EmptyString (head (input w))) fresh))),
     mkWorld
       (tables w
        ++ [mkSymbolTable {["message" := Some message]}
              (Some (symbolTable c))])
       (output w ++ [Prompted (toString message)]) (tail (input w))).
Proof.
  intros Hc ec message.
  destruct (builtin_sees_argument visitWith soma st c "message" v w Hc
              eq_refl) as [Hrun Hget].
  cbn [nameOf stamp builtinName] in Hrun, Hget. fold ec in Hrun, Hget.
  rewrite Hrun. cbn [builtinMethod]. unfold execute_soma.
  erewrite bind_Done.
  2:{ rewrite bind_read, Hget. cbn [deref]. rewrite bind_ret.
      by rewrite (bind_Done _ _ _ _ _ (prompt_takes_a_line _ _)). }
  reflexivity.
Qed.

(** X15: [somaNambari] answers every line that is not a number with the
    message "Jibu yako si nambari. Jaribu tena." and asks again. It stops
    at the first line that is a number, or at the end of the input, and
    has then taken these lines, and no more, from the input. *)
Theorem X15_somaNambari_asks_again
    (visitWith : Z → Node → Context → Eval RTResult) (st : Stamp)
    (c : Context) (v : SWValue) (w : World) (bad rest : list string) :
  context st = Some c →
  input w = bad ++ rest →
  Forall (λ line, parseNumber line = None) bad →
  (∀ line, head rest = Some line → is_Some (parseNumber line)) →
  let executionContext :=
    mkContext "somaNambari" (Some c) (posStart st) (length (tables w)) in
  let message := setContext (Some executionContext) v in
  let after :=
    snd (execute visitWith (SWBuiltInFunction somaNambari st) [Some v] w) in
  output after
  = output w
    ++ concat ((λ _, [Prompted (toString message);
                      Printed "Jibu yako si nambari. Jaribu tena."])
               <$> bad)
    ++ [Prompted (toString message)]
  ∧ input after = tail rest.
Proof.
  intros Hc Hin Hbad Hgood ec message.
  destruct (builtin_sees_argument visitWith somaNambari st c "message" v w
              Hc eq_refl) as [Hrun Hget].
  cbn [nameOf stamp builtinName] in Hrun, Hget. fold ec in Hrun, Hget.
  rewrite Hrun. cbn [builtinMethod]. unfold execute_somaNambari.
  fold message in Hget |- *.
  set (w' := withNewTable _ _ w) in *.
  destruct (somaNambariLoop (toString message) (input w') (output w'))
    as [[n lines] out] eqn:Hloop.
  erewrite bind_Done.
  2:{ rewrite bind_read, Hget. cbn [deref]. rewrite bind_ret.
      unfold bind at 1. rewrite Hloop. reflexivity. }
  cbn [handBack register success newRTResult resError resValue hasError
       ret snd output input].
  unfold w', withNewTable in Hloop. cbn [input output] in Hloop.
  rewrite Hin, (somaNambariLoop_retries _ _ _ _ Hbad) in Hloop.
  destruct rest as [| good rest']; cbn [somaNambariLoop] in Hloop.
  - injection Hloop as <- <- <-. by rewrite app_assoc.
  - destruct (Hgood good eq_refl) as [m Hm]. rewrite Hm in Hloop.
    injection Hloop as <- <- <-. by rewrite app_assoc.
Qed.

(** ** Loops that come to their end *)

Section LoopsComplete.
Variable visit : Node → Context → Eval RTResult.
Variable maxCallStackSize : Z.
Variables (ps pe : Position) (c : Context).

Lemma forLoop_completes varName bodyNode step endValue :
  ∀ n budget i calls res elements w vs w',
    hasError res = false →
    calls + Z.of_nat n < maxCallStackSize →
    (n ≤ budget)%nat →
    forIterations visit n varName bodyNode c step endValue i w
    = Some (vs, w') →
    heldExactly step endValue (i + Z.of_nat n * step) = true →
    forCondition step endValue (i + Z.of_nat n * step) = false →
    forLoop visit maxCallStackSize budget varName bodyNode ps pe c step
      endValue i calls res elements w
    = (Done
         (success res
            (Some (setPosition (Some ps) (Some pe)
                     (setContext (Some c)
                        (SWList (elements ++ vs) fresh))))), w').
Proof.
  induction n as [| n IH];
    intros budget i calls res elements w vs w' Hres Hcalls Hbudget Hiter
      Hexact Hend.
  - cbn [forIterations] in Hiter. injection Hiter as <- <-.
    replace (i + Z.of_nat 0 * step) with i in Hexact, Hend by lia.
    rewrite app_nil_r. destruct budget; cbn [forLoop];
      by rewrite Hexact, Hend.
  - destruct budget as [| budget]; [lia |].
    cbn [forIterations] in Hiter.
    destruct (heldExactly step endValue i) eqn:Hheld; [| done].
    destruct (forCondition step endValue i) eqn:Hcond; [| done].
    cbn [andb] in Hiter.
    destruct (succeeds visit bodyNode c _) as [[v w1] |] eqn:Hb; [| done].
    destruct (forIterations visit n varName bodyNode c step endValue
                (i + step) w1) as [[vs' w2] |] eqn:Hrest; [| done].
    injection Hiter as <- <-.
    apply succeeds_inv in Hb as (rb & Hvb & Heb & Hrb).
    cbn [forLoop]. rewrite Hheld, Hcond. cbn [negb]. rewrite bind_update.
    rewrite (bind_Done _ _ _ _ _ Hvb), (register_ok _ _ Heb), Hres.
    replace (calls + 1 =? maxCallStackSize) with false
      by (symmetry; apply Z.eqb_neq; lia).
    replace (i + Z.of_nat (S n) * step)
      with (i + step + Z.of_nat n * step) in Hexact, Hend by lia.
    rewrite (IH budget (i + step) (calls + 1) res (elements ++ [resValue rb])
               w1 vs' w2 Hres); [| lia | lia | done ..].
    by rewrite Hrb, <- app_assoc.
Qed.

Lemma whileLoop_completes conditionNode bodyNode :
  ∀ n budget calls res elements w vs w1 condition w2,
    hasError res = false →
    calls + Z.of_nat n < maxCallStackSize →
    (n < budget)%nat →
    whileIterations visit n conditionNode bodyNode c w = Some (vs, w1) →
    succeeds visit conditionNode c w1 = Some (Some condition, w2) →
    isTrue condition = false →
    whileLoop visit maxCallStackSize budget conditionNode bodyNode ps pe c
      calls res elements w
    = (Done
         (success res
            (Some (setPosition (Some ps) (Some pe)
                     (setContext (Some c)
                        (SWList (elements ++ vs) fresh))))), w2).
Proof.
  induction n as [| n IH];
    intros budget calls res elements w vs w1 condition w2 Hres Hcalls
      Hbudget Hiter Hlast Hfalse;
    (destruct budget as [| budget]; [lia |]).
  - cbn [whileIterations] in Hiter. injection Hiter as <- <-.
    apply succeeds_inv in Hlast as (rc & Hvc & Hec & Hrc).
    cbn [whileLoop].
    rewrite (bind_Done _ _ _ _ _ Hvc), (register_ok _ _ Hec), Hres, Hrc.
    cbn [deref]. rewrite bind_ret, Hfalse. cbn [negb].
    by rewrite app_nil_r.
  - cbn [whileIterations] in Hiter.
    destruct (whileIteration visit conditionNode bodyNode c w)
      as [[v w0] |] eqn:Hit; [| done].
    destruct (whileIterations visit n conditionNode bodyNode c w0)
      as [[vs' w1'] |] eqn:Hrest; [| done].
    injection Hiter as <- <-.
    unfold whileIteration in Hit.
    destruct (succeeds visit conditionNode c w)
      as [[[cv |] wc] |] eqn:Hc; try done.
    destruct (isTrue cv) eqn:Htrue; [| done].
    apply succeeds_inv in Hc as (rc & Hvc & Hec & Hrc).
    apply succeeds_inv in Hit as (rb & Hvb & Heb & Hrb).
    cbn [whileLoop].
    rewrite (bind_Done _ _ _ _ _ Hvc), (register_ok _ _ Hec), Hres, Hrc.
    cbn [deref]. rewrite bind_ret, Htrue. cbn [negb].
    rewrite (bind_Done _ _ _ _ _ Hvb), (register_ok _ _ Heb), Hres.
    replace (calls + 1 =? maxCallStackSize) with false
      by (symmetry; apply Z.eqb_neq; lia).
    rewrite (IH budget (calls + 1) res (elements ++ [resValue rb]) w0 vs'
               w1' condition w2 Hres); [| lia | lia | done | done | done].
    by rewrite Hrb, <- app_assoc.
Qed.

End LoopsComplete.

(** X16: a [kwa] loop that makes [n] turns, fewer than the bound, and
    then finds its condition false evaluates to the List of the values of
    its body, in the order of the turns, positioned at the loop. With no
    turn at all the List is empty and the loop variable is not bound. The
    counter stays among the numbers that are held exactly, up to and
    including the one that ends the loop. *)
Theorem X16_for_loop_gives_the_body_values
    (fuel : nat) (maxCallStackSize : Z) (varName : string)
    (startValueNode endValueNode : Node) (stepValueNode : option Node)
    (bodyNode : Node) (ps pe : Position) (c : Context) (n : nat)
    (start endValue step : Z) (vs : list ValRef) (w w0 w' : World) :
  forBounds (visit fuel maxCallStackSize) startValueNode endValueNode
    stepValueNode c w = Some (start, endValue, step, w0) →
  forIterations (visit fuel maxCallStackSize) n varName bodyNode c step
    endValue start w0 = Some (vs, w') →
  heldExactly step endValue (start + Z.of_nat n * step) = true →
  forCondition step endValue (start + Z.of_nat n * step) = false →
  Z.of_nat n < maxCallStackSize →
  (n ≤ fuel)%nat →
  visit (S fuel) maxCallStackSize
    (ForNode varName startValueNode endValueNode stepValueNode bodyNode
       ps pe) c w
  = (Done
       (success newRTResult
          (Some (setPosition (Some ps) (Some pe)
                   (setContext (Some c) (SWList vs fresh))))), w').
Proof.
  intros Hbounds Hiter Hexact Hend Hn Hfuel. cbn [visit].
  rewrite (visitForNode_bounds _ _ _ _ _ _ _ _ _ _ _ _ _ _ _ _ Hbounds).
  assert (0 + Z.of_nat n < maxCallStackSize) as Hcalls by lia.
  by rewrite (forLoop_completes _ _ _ _ _ _ _ _ _ n fuel start 0 newRTResult
                [] w0 vs w' eq_refl Hcalls Hfuel Hiter Hexact Hend).
Qed.

(** X17: a [wakati] loop that makes [n] turns, fewer than the bound, and
    then finds its condition falsy evaluates to the List of the values of
    its body, in the order of the turns; the condition has then been
    evaluated [n + 1] times. *)
Theorem X17_while_loop_gives_the_body_values
    (fuel : nat) (maxCallStackSize : Z) (conditionNode bodyNode : Node)
    (ps pe : Position) (c : Context) (n : nat) (vs : list ValRef)
    (condition : SWValue) (w w1 w2 : World) :
  whileIterations (visit fuel maxCallStackSize) n conditionNode bodyNode c w
  = Some (vs, w1) →
  succeeds (visit fuel maxCallStackSize) conditionNode c w1
  = Some (Some condition, w2) →
  isTrue condition = false →
  Z.of_nat n < maxCallStackSize →
  (n < fuel)%nat →
  visit (S fuel) maxCallStackSize (WhileNode conditionNode bodyNode ps pe)
    c w
  = (Done
       (success newRTResult
          (Some (setPosition (Some ps) (Some pe)
                   (setContext (Some c) (SWList vs fresh))))), w2).
Proof.
  intros Hiter Hlast Hfalse Hn Hfuel. cbn [visit]. unfold visitWhileNode.
  assert (0 + Z.of_nat n < maxCallStackSize) as Hcalls by lia.
  by rewrite (whileLoop_completes _ _ _ _ _ _ _ n fuel 0 newRTResult [] w vs
                w1 condition w2 eq_refl Hcalls Hfuel Hiter Hlast Hfalse).
Qed.

(** ** Variables *)

(** X18: an assignment stores the value of its expression in the symbol
    table of the context it is evaluated in, and evaluates to that value;
    an access to the variable in the same context then gives a copy of the
    stored value, positioned at the access. *)
Theorem X18_assign_then_access
    (visit : Node → Context → Eval RTResult) (varName : string)
    (valueNode : Node) (ps pe : Position) (c : Context) (r : RTResult)
    (v : SWValue) (w w1 : World) :
  visit valueNode c w = (Done r, w1) →
  resError r = None →
  resValue r = Some v →
  is_Some (tables w1 !! symbolTable c) →
  let w2 := set (symbolTable c) varName (Some v) w1 in
  visitVarAssignNode visit varName valueNode c w
  = (Done (success newRTResult (Some v)), w2)
  ∧ visitVarAccessNode varName ps pe c w2
    = bind (copy v)
        (λ value,
           ret (success newRTResult
                  (Some (setContext (Some c)
                           (setPosition (Some ps) (Some pe) value))))) w2.
Proof.
  intros Hvisit Hok Hvalue Htable w2. split.
  - unfold visitVarAssignNode.
    rewrite (bind_Done _ _ _ _ _ Hvisit), (register_ok _ _ Hok), Hvalue.
    cbn [hasError resError newRTResult]. by rewrite bind_update.
  - unfold visitVarAccessNode, w2. rewrite bind_read.
    by rewrite (get_ownBinding _ _ _ _
                  (ownBinding_set_eq _ varName (Some v) _ Htable)).
Qed.

(** ** The lexeme table *)

Lemma between_spec lo hi u :
  Lexemes.between lo hi u = true ↔ lo ≤ u ≤ hi.
Proof.
  unfold Lexemes.between. rewrite andb_true_iff, !Z.leb_le. lia.
Qed.

(** X19: the patterns of the lexeme table tell the characters apart. A
    character is matched by two different lexemes only when it is a line
    feed or a carriage return, which both [lineEndings] and
    [spacesAndTabs] match. *)
Theorem X19_lexemes_overlap_only_at_line_ends
    (lexeme other : Lexemes.Lexeme) (u : Z) :
  lexeme ≠ other →
  Lexemes.pattern lexeme u = true ∧ Lexemes.pattern other u = true
  ↔ (u = 10 ∨ u = 13)
    ∧ (lexeme = Lexemes.lineEndings ∧ other = Lexemes.spacesAndTabs
       ∨ lexeme = Lexemes.spacesAndTabs ∧ other = Lexemes.lineEndings).
Proof.
  intros Hne. split.
  - intros [Hl Ho].
    destruct lexeme, other; try done;
      cbn [Lexemes.pattern] in Hl, Ho; unfold Lexemes.whiteSpace in *;
      rewrite ?orb_true_iff, ?between_spec, ?Z.eqb_eq in Hl;
      rewrite ?orb_true_iff, ?between_spec, ?Z.eqb_eq in Ho;
      first [lia | (split; [lia | by auto])].
  - intros [Hu [[-> ->] | [-> ->]]];
      by destruct Hu as [-> | ->].
Qed.

(** ** The stand-alone [populateArgs] *)

Section StandAlone.
Variables (ec : Context) (own : TableId) (args : list ValRef).

(** The first loop binds no other name than the parameters. *)
Lemma bindNamed_other name :
  ∀ argNames i nullValue allArgs w r w1,
    name ∉ argNames →
    BaseFunction.bindNamed i argNames args ec own nullValue allArgs w
    = (r, w1) →
    ownBinding (symbolTable ec) name w1 = ownBinding (symbolTable ec) name w.
Proof.
  induction argNames as [| argName argNames IH];
    intros i nullValue allArgs w r w1 Hnot; cbn [BaseFunction.bindNamed].
  { by intros [= _ <-]. }
  apply not_elem_of_cons in Hnot as [Hne Hnot]. cbv zeta.
  destruct (if (i <? length args)%nat then mjoin (args !! i) else nullValue)
    as [argValue |].
  - rewrite !bind_update. intros Hrest.
    rewrite (IH _ _ _ _ _ _ Hnot Hrest).
    by rewrite !ownBinding_set_ne by auto.
  - by apply IH.
Qed.

(** A parameter that stands after the last argument gets the null value
    of the call, if there is one, and is left alone otherwise. *)
Lemma bindNamed_missing name :
  ∀ argNames i j nullValue allArgs w r w1,
    NoDup argNames →
    argNames !! j = Some name →
    (length args ≤ i + j)%nat →
    is_Some (tables w !! symbolTable ec) →
    BaseFunction.bindNamed i argNames args ec own nullValue allArgs w
    = (r, w1) →
    ownBinding (symbolTable ec) name w1
    = match nullValue with
      | Some null => Some (Some (setContext (Some ec) null))
      | None => ownBinding (symbolTable ec) name w
      end.
Proof.
  induction argNames as [| argName argNames IH];
    intros i j nullValue allArgs w r w1 Hdup Hj Hlen Htable; [done |].
  apply NoDup_cons in Hdup as [Hfirst Hdup].
  cbn [BaseFunction.bindNamed]. cbv zeta.
  destruct j as [| j]; cbn in Hj.
  - injection Hj as ->.
    replace (i <? length args)%nat with false
      by (symmetry; apply Nat.ltb_ge; lia).
    destruct nullValue as [null |].
    + rewrite !bind_update. intros Hrest.
      rewrite (bindNamed_other _ _ _ _ _ _ _ _ Hfirst Hrest).
      destruct (decide (own = symbolTable ec)) as [-> | Hne].
      * apply ownBinding_set_eq. by apply set_keeps_table.
      * rewrite ownBinding_set_ne by auto. by apply ownBinding_set_eq.
    + intros Hrest.
      by rewrite (bindNamed_other _ _ _ _ _ _ _ _ Hfirst Hrest).
  - assert (argName ≠ name) as Hne.
    { intros ->. apply Hfirst. by eapply list_elem_of_lookup_2. }
    destruct (i <? length args)%nat.
    + destruct (mjoin (args !! i)) as [argValue |].
      * rewrite !bind_update. intros Hrest.
        rewrite (IH (S i) j _ _ _ _ _ Hdup Hj ltac:(lia)
                   ltac:(by do 2 apply set_keeps_table) Hrest).
        destruct nullValue; [done |].
        by rewrite !ownBinding_set_ne by auto.
      * intros Hrest.
        by rewrite (IH (S i) j _ _ _ _ _ Hdup Hj ltac:(lia) Htable Hrest).
    + destruct nullValue as [null |].
      * rewrite !bind_update. intros Hrest.
        rewrite (IH (S i) j _ _ _ _ _ Hdup Hj ltac:(lia)
                   ltac:(by do 2 apply set_keeps_table) Hrest).
        by rewrite setContext_again.
      * intros Hrest.
        by rewrite (IH (S i) j _ _ _ _ _ Hdup Hj ltac:(lia) Htable Hrest).
Qed.

End StandAlone.

(** X20: the stand-alone [populateArgs] has no arity check: called with
    fewer arguments than parameters it succeeds all the same. A parameter
    that no argument is left for is bound to the shared Null, which then
    carries the execution context, when [nullType] is set, and is not
    touched when it is not. The value of the result is that one Null
    object as it has become. The arguments are objects of their own:
    none is held by a table of the store, and none is the shared Null. *)
Theorem X20_missing_arguments_are_null
    (own : TableId) (argNames : list string) (vs : list SWValue)
    (ec : Context) (nullType : bool) (NULL : SWValue) (w : World) (j : nat)
    (name : string) :
  is_Some (tables w !! symbolTable ec) →
  Forall (λ argValue, ¬ heldBy w argValue ∧ argValue ≠ NULL) vs →
  NoDup argNames →
  argNames !! j = Some name →
  (length vs ≤ j)%nat →
  name ≠ "__hoja" →
  ∃ w',
    BaseFunction.populateArgs own (Some argNames) (Some <$> vs) ec nullType
      NULL w
    = (Done
         (success newRTResult
            (Some (if nullType then setContext (Some ec) NULL else NULL))),
       w')
    ∧ ownBinding (symbolTable ec) name w'
      = if nullType then Some (Some (setContext (Some ec) NULL))
        else ownBinding (symbolTable ec) name w.
Proof.
  intros Htable _ Hdup Hj Hlen Hname.
  assert (length vs < length argNames)%nat as Hfew.
  { apply lookup_lt_Some in Hj. lia. }
  destruct (BaseFunction_populateArgs_binds_hoja own (Some argNames) vs ec
              nullType NULL w Htable) as (w' & Hrun & _).
  exists w'. split.
  { rewrite Hrun. unfold nullAfter. cbn [default id].
    apply Nat.ltb_lt in Hfew. rewrite Hfew. by destruct nullType. }
  revert Hrun. unfold BaseFunction.populateArgs. cbn [default].
  edestruct (bindNamed_given ec own vs argNames 0
               (if nullType then Some NULL else None) [] w)
    as (w1 & Hbind & _).
  rewrite (bind_Done _ _ _ _ _ Hbind), !bind_update.
  intros [= _ <-].
  rewrite !ownBinding_set_ne by auto.
  rewrite (bindNamed_missing ec own (Some <$> vs) name argNames 0 j _ [] w
             _ w1 Hdup Hj ltac:(by rewrite length_fmap) Htable Hbind).
  by destruct nullType.
Qed.

(** ** The value of a call *)

(** X21: a call through a name bound to a function, with the right number
    of arguments, none of them null. Once the body (or the host handler)
    has returned in the table of the call, an error of the body is the
    error of the call; a value of the body is copied, and the copy is
    positioned at the call and given the context of the caller; and a body
    that has no value (JavaScript's [null]) gives the call no value. *)
Theorem X21_value_of_a_call
    (fuel : nat) (maxCallStackSize : Z) (name : string)
    (p1 p2 ps pe : Position) (argNodes : list Node) (c : Context)
    (f : SWValue) (vs : list SWValue) (r : RTResult) (w w1 w3 : World) :
  get (symbolTable c) name w = Some f →
  isFunction f = true →
  succeedAll (visit (S fuel) maxCallStackSize) argNodes c w
  = Some (Some <$> vs, w1) →
  length vs = length (paramNames f) →
  let this := restamped f ps pe c in
  let executionContext :=
    mkContext (nameOf this) (Some c) (Some ps) (length (tables w1)) in
  let w2 :=
    withNewTable (boundFrom 0 (paramNames f) vs executionContext ∅)
      (Some (symbolTable c)) w1 in
  bodyOrHandler (visit (S fuel)) this executionContext w2 = (Done r, w3) →
  visit (S (S fuel)) maxCallStackSize
    (CallNode (VarAccessNode name p1 p2) argNodes ps pe) c w
  = match resError r, resValue r with
    | Some e, _ => (Done (failure newRTResult e), w3)
    | None, Some v =>
        bind (copy v)
          (λ returnValue,
             ret (success newRTResult
                    (Some (setContext (Some c)
                             (setPosition (Some ps) (Some pe)
                                returnValue))))) w3
    | None, None => (Done (success newRTResult None), w3)
    end.
Proof.
  intros Hget Hf Hargs Hlen this ec w2 Hbody.
  rewrite (visit_call_named _ _ _ _ _ _ _ _ _ _ _ Hget Hf).
  rewrite (bind_Done _ _ _ _ _
             (visitEach_succeedAll _ _ _ newRTResult [] _ _ _ eq_refl Hargs)).
  cbn [app]. fold this.
  assert (paramNames this = paramNames f) as Hparams by (by destruct f).
  assert (posStart (stamp this) = Some ps) as Hps by (by destruct f).
  pose proof (execute_runs_body (visit (S fuel)) this c vs w1
                (restamped_isFunction _ ps pe c Hf)
                (restamped_context _ ps pe c Hf)) as Hrun.
  rewrite Hparams, Hps in Hrun. specialize (Hrun Hlen). cbn zeta in Hrun.
  fold ec in Hrun. fold w2 in Hrun.
  assert (execute (visit (S fuel)) this (Some <$> vs) w1
          = (Done
               match resError r with
               | Some e => failure newRTResult e
               | None => success newRTResult (resValue r)
               end, w3)) as Hexec.
  { rewrite Hrun, (bind_Done _ _ _ _ _ Hbody). unfold handBack, register.
    by destruct (resError r). }
  rewrite (bind_Done _ _ _ _ _ Hexec). unfold returnFromCall, register.
  destruct (resError r) as [e |]; [done |].
  cbn [resError resValue success newRTResult hasError].
  destruct (resValue r) as [v |]; [| done].
  unfold bind. by destruct (copy v w3) as [[] ?].
Qed.

(** ** The variable of a [kwa] loop *)






(** ** The bound inside the body of a function *)



End FurtherProperties.

(** * The properties on the example programs *)

Section Runs.
Import SpecModel Examples MoreExamples.

(** C1 at the outer call of [gen(10)(5)], made in the global context once
    [gen] is defined. The callee is the call [gen(10)], whose value is the
    function [add], defined in the execution context of [gen]; it comes
    back stamped with the global context, and the execution context of
    [add] has the global context, not the context of the definition, as
    its parent. *)
Lemma C1_witness :
  let add :=
    SWFunction "add" addBody ["x"]
      (mkStamp (Some (at_column 38)) (Some (at_column 45))
         (Some globalContext)) in
  let five' :=
    SWNumber 5
      (mkStamp (Some (at_column 46)) (Some (at_column 47))
         (Some globalContext)) in
  let w1 := snd (visit 3 defaultMaxCallStackSize genCall globalContext
                   afterGen) in
  let executionContext :=
    mkContext "add" (Some globalContext) (Some (at_column 38))
      (length (tables w1)) in
  let w2 := withNewTable ∅ (Some 0%nat) w1 in
  visit 3 defaultMaxCallStackSize genCall globalContext afterGen
  = (Done (mkRTResult (Some add) None), w1)
  ∧ executionContext = addContext
  ∧ visit 4 defaultMaxCallStackSize
      (CallNode genCall [five] (at_column 38) (at_column 48)) globalContext
      afterGen
    = bind
        (executeIn (visit 3)
           (restamped add (at_column 38) (at_column 48) globalContext)
           [Some five'] executionContext)
        (returnFromCall (at_column 38) (at_column 48) globalContext
           newRTResult) w2
  ∧ parent executionContext = Some globalContext
  ∧ parentOf (symbolTable executionContext) w2
    = Some (symbolTable globalContext)
  ∧ symbolTable globalContext ≠ symbolTable genContext.
Proof.
  intros add five' w1 executionContext w2.
  assert (visit 3 defaultMaxCallStackSize genCall globalContext afterGen
          = (Done (mkRTResult (Some add) None), w1)) as Hcallee
    by (vm_compute; reflexivity).
  pose proof (C1_call_scope_is_call_site 2 defaultMaxCallStackSize genCall
                (at_column 38) (at_column 48) [five] globalContext
                globalContext add newRTResult [Some five'] afterGen w1 w1
                Hcallee eq_refl eq_refl) as Hcall.
  cbv zeta in Hcall.
  destruct Hcall as (Hcall & Hparent & Htable & _);
    [vm_compute; reflexivity |].
  split; [exact Hcallee |]. split; [vm_compute; reflexivity |].
  split; [exact Hcall |]. split; [exact Hparent |].
  split; [exact Htable | discriminate].
Defined.

(** C1 fails on the closure example of the specification. [add] is defined
    in the execution context of [gen(10)], whose table binds [n]; the call
    [gen(10)(5)] is made in the global context. The execution context of
    [add] gets the global table as the parent of its table, not the table
    of the context of definition, and [n] is not found. It fails for
    built-ins too: [idadi] called in the body of [f] gets the table of the
    execution context of [f] as the parent of its table, not the global
    one. *)
Lemma C1_counterexample :
  (∃ e w,
     visit 6 defaultMaxCallStackSize closureProgram globalContext
       (initialWorld [])
     = (Done (failure newRTResult e), w)
     ∧ details e = "'n' is not defined"
     ∧ errContext e = Some addContext
     ∧ ownBinding (symbolTable genContext) "add" w
       = Some (Some (SWFunction "add" addBody ["x"]
                       (mkStamp (Some (at_column 18)) (Some (at_column 34))
                          (Some genContext))))
     ∧ ownBinding (symbolTable genContext) "n" w
       = Some (Some (SWNumber 10
                       (mkStamp (Some (at_column 42)) (Some (at_column 44))
                          (Some genContext))))
     ∧ parentOf (symbolTable addContext) w = Some (symbolTable globalContext)
     ∧ parentOf (symbolTable addContext) w ≠ Some (symbolTable genContext))
  ∧ (∃ e w,
       visit 6 defaultMaxCallStackSize builtinInFunction globalContext
         (initialWorld [])
       = (Done (failure newRTResult e), w)
       ∧ details e = "Cannot find length of non-iterable value"
       ∧ errContext e = Some idadiContext
       ∧ parentOf (symbolTable idadiContext) w = Some (symbolTable fContext)
       ∧ parentOf (symbolTable idadiContext) w
         ≠ Some (symbolTable globalContext)).
Proof.
  split.
  - eexists _, _. split; [vm_compute; reflexivity |].
    repeat split; try (vm_compute; reflexivity).
    vm_compute. discriminate.
  - eexists _, _. split; [vm_compute; reflexivity |].
    repeat split; try (vm_compute; reflexivity).
    vm_compute. discriminate.
Qed.

(** C2 at a call of a function of one parameter [a], whose body reads
    [__hoja], with the argument 1, from the global context. *)
Lemma C2_witness :
  let body := VarAccessNode "__hoja" (at_column 16) (at_column 22) in
  let f :=
    SWFunction "f" body ["a"]
      (mkStamp (Some (at_column 26)) (Some (at_column 30))
         (Some globalContext)) in
  let executionContext :=
    mkContext "f" (Some globalContext) (Some (at_column 26)) 1%nat in
  let w2 :=
    withNewTable
      {["a" := Some (SWNumber 1 (mkStamp None None (Some executionContext)))]}
      (Some 0%nat) (initialWorld []) in
  ("__hoja" ∉ ["a"])
  ∧ execute (visit 1) f [Some (SWNumber 1 fresh)] (initialWorld [])
    = bind (visit 1 defaultMaxCallStackSize body executionContext)
        handBack w2
  ∧ ownBinding 1%nat "__hoja" w2 = None.
Proof.
  intros body f executionContext w2.
  assert ("__hoja" ∉ ["a"]) as Hnot
    by (by intros Heq%list_elem_of_singleton).
  split; [exact Hnot |].
  exact (C2_hoja_is_not_bound (visit 1) f globalContext [SWNumber 1 fresh]
           (initialWorld []) eq_refl eq_refl eq_refl Hnot).
Defined.

(** C2 on a whole program: the body of [f] reads [__hoja], and the call
    [f(1)] fails because the name is not defined. *)
Lemma hojaProgram_fails :
  fst (visit 4 defaultMaxCallStackSize hojaProgram globalContext
         (initialWorld []))
  = Done
      (failure newRTResult
         (mkRTError (Some (at_column 16)) (Some (at_column 22))
            "'__hoja' is not defined"
            (Some (mkContext "f" (Some globalContext) (Some (at_column 26))
                     1%nat)))).
Proof. vm_compute. reflexivity. Qed.

(** C3 at a [kwa] loop whose step is an undefined name. *)
Lemma C3_witness :
  visit 2 defaultMaxCallStackSize forWithBadStep globalContext
    (initialWorld [])
  = (Throw (TypeError "Cannot read properties of null"), initialWorld []).
Proof.
  refine (C3_step_error_is_not_returned
            (visit 1 defaultMaxCallStackSize) defaultMaxCallStackSize 1
            "i" _ _ stepNode _ _ _ globalContext 0 _ _
            (mkRTError (Some (at_column 22)) (Some (at_column 23))
               "'h' is not defined" (Some globalContext))
            (initialWorld []) (initialWorld []) (initialWorld [])
            (initialWorld []) _ _ _ _);
    vm_compute; reflexivity.
Defined.

(** C4 at the built-in [andika] used as the condition of an [IfNode]. *)
Lemma C4_witness :
  let v :=
    restamped (SWBuiltInFunction andika fresh) (at_column 5) (at_column 11)
      globalContext in
  isFunction v = true
  ∧ isTrue v = false
  ∧ fst (visit 2 defaultMaxCallStackSize ifOnFunction globalContext
           (initialWorld []))
    = Done
        (success newRTResult
           (Some (SWNumber 2
                    (mkStamp (Some (at_column 26)) (Some (at_column 27))
                       (Some globalContext))))).
Proof.
  intros v.
  destruct (C4_function_values_are_falsy v eq_refl) as [Hfalse Hcases].
  split; [reflexivity |]. split; [exact Hfalse |].
  cbn [visit ifOnFunction]. unfold visitIfNode.
  unfold bind at 1.
  rewrite (Hcases (visit 1 defaultMaxCallStackSize)
             (VarAccessNode "andika" (at_column 5) (at_column 11))
             (NumberNode 1 (at_column 14) (at_column 15)) [] globalContext
             newRTResult (initialWorld []) (initialWorld []) eq_refl eq_refl).
  vm_compute. reflexivity.
Defined.

(** C4 fails: [isTrue] answers [false] on a user function and on a
    built-in function. *)
Lemma C4_counterexample :
  isTrue (SWFunction "f" (NumberNode 1 (at_column 0) (at_column 1)) []
            fresh) = false
  ∧ isTrue (SWBuiltInFunction andika fresh) = false
  ∧ ¬ (∀ v, isFunction v = true → isTrue v = true).
Proof.
  split; [reflexivity |]. split; [reflexivity |].
  intros Hall. specialize (Hall (SWBuiltInFunction andika fresh) eq_refl).
  discriminate Hall.
Qed.

(** C5 at [!andika]. *)
Lemma C5_witness :
  visit 2 defaultMaxCallStackSize notOnFunction globalContext
    (initialWorld [])
  = (Throw (ReferenceError "other is not defined"), initialWorld []).
Proof.
  exact (proj2
           (C5_notted_function_throws
              (restamped (SWBuiltInFunction andika fresh) (at_column 1)
                 (at_column 7) globalContext) eq_refl)
           (visit 1 defaultMaxCallStackSize)
           (VarAccessNode "andika" (at_column 1) (at_column 7))
           (at_column 0) (at_column 7)
           globalContext (initialWorld []) (initialWorld []) eq_refl).
Defined.

(** C7 at [andika] called with two arguments, and with none. *)
Lemma C7_witness :
  let this :=
    restamped (SWBuiltInFunction andika fresh) (at_column 0) (at_column 12)
      globalContext in
  let one := Some (SWNumber 1 fresh) in
  execute (visit 0) this [one; one] (initialWorld [])
  = (Done
       (failure newRTResult
          (mkRTError (Some (at_column 0)) (Some (at_column 12))
             "1 too many args passed into andika" (Some globalContext))),
     withNewTable ∅ (Some 0%nat) (initialWorld []))
  ∧ execute (visit 0) this [] (initialWorld [])
    = (Done
         (failure newRTResult
            (mkRTError (Some (at_column 0)) (Some (at_column 12))
               "1 too few args passed into andika" (Some globalContext))),
       withNewTable ∅ (Some 0%nat) (initialWorld [])).
Proof.
  intros this one. split.
  - apply (C7_arity_mismatch (visit 0) this [one; one] globalContext
             (initialWorld []) eq_refl eq_refl).
    vm_compute. lia.
  - apply (C7_arity_mismatch (visit 0) this [] globalContext
             (initialWorld []) eq_refl eq_refl).
    vm_compute. lia.
Defined.

(** C8 at [idadi("hello")]: the built-in answers the Number 5. *)
Lemma C8_witness :
  let hello :=
    SWString "hello"
      (mkStamp (Some (at_column 6)) (Some (at_column 13))
         (Some globalContext)) in
  let st :=
    mkStamp (Some (at_column 0)) (Some (at_column 14)) (Some globalContext) in
  fst (execute (visit 0) (SWBuiltInFunction idadi st) [Some hello]
         (initialWorld []))
  = Done (success newRTResult (Some (SWNumber 5 fresh))).
Proof.
  intros hello st.
  by rewrite (C8_idadi (visit 0) st globalContext hello (initialWorld [])
                eq_refl).
Defined.

(** The two examples of the specification, as whole programs. *)
Lemma idadi_hello :
  fst (visit 3 defaultMaxCallStackSize (idadiOf helloNode) globalContext
         (initialWorld []))
  = Done
      (success newRTResult
         (Some (SWNumber 5
                  (mkStamp (Some (at_column 0)) (Some (at_column 14))
                     (Some globalContext))))).
Proof. vm_compute. reflexivity. Qed.

Lemma idadi_forty_two :
  fst (visit 3 defaultMaxCallStackSize (idadiOf fortyTwoNode) globalContext
         (initialWorld []))
  = Done
      (failure newRTResult
         (mkRTError (Some (at_column 6)) (Some (at_column 8))
            "Cannot find length of non-iterable value"
            (Some (mkContext "idadi" (Some globalContext)
                     (Some (at_column 0)) 1%nat)))).
Proof. vm_compute. reflexivity. Qed.

(** C6 at [wakati kweli { 1 }] under an interpreter whose bound is 3. *)
Lemma C6_witness :
  visit 4 3 whileForever globalContext (initialWorld [])
  = (Done
       (mkRTResult None
          (Some (mkRTError (Some (at_column 0)) (Some (at_column 18))
                   "Max call stack size exceeded" (Some globalContext)))),
     initialWorld []).
Proof.
  eapply (proj1 (C6_loops_stop_at_the_bound 3 (at_column 0) (at_column 18)
                   globalContext ltac:(lia)) 3%nat);
    [lia | vm_compute; reflexivity].
Defined.

(** The same loop under the default bound: scenario 6 of the
    specification. *)
Lemma whileForever_default_bound :
  fst (visit (Z.to_nat 10001) defaultMaxCallStackSize whileForever globalContext
         (initialWorld []))
  = Done
      (mkRTResult None
         (Some (mkRTError (Some (at_column 0)) (Some (at_column 18))
                  "Max call stack size exceeded" (Some globalContext)))).
Proof. vm_compute. reflexivity. Qed.




(** The loop of seven turns fails under an interpreter whose bound is 5,
    and runs to its end when the same interpreter calls a function whose
    body is that loop. *)
Lemma sevenTurns_direct :
  fst (visit 9 5 sevenTurns globalContext (initialWorld []))
  = Done
      (mkRTResult None
         (Some (mkRTError (Some (at_column 17)) (Some (at_column 40))
                  "Max call stack size exceeded" (Some globalContext)))).
Proof. vm_compute. reflexivity. Qed.

Lemma sevenTurns_in_function :
  ∃ elements st w',
    visit 11 5 (ListNode [defineHesabu; callHesabu] (at_column 0)
                  (at_column 52)) globalContext (initialWorld [])
    = (Done
         (success newRTResult
            (Some (SWList [Some (SWFunction "hesabu" sevenTurns []
                                   (mkStamp (Some (at_column 0))
                                      (Some (at_column 42))
                                      (Some globalContext)));
                           Some (SWList elements st)]
                     (mkStamp (Some (at_column 0)) (Some (at_column 52))
                        (Some globalContext))))), w')
    ∧ length elements = 7%nat.
Proof. eexists _, _, _. split; vm_compute; reflexivity. Qed.

End Runs.

(** * The further properties on example programs *)

Section FurtherRuns.
Import SpecModel Examples MoreExamples.

(** Until a program has run, the store holds the built-ins and the three
    constants, and no Number at all. *)
Lemma initialWorld_holds_no_number lines n st :
  ¬ heldBy (initialWorld lines) (SWNumber n st).
Proof.
  intros (t & name & x & Hown & Hin). unfold ownBinding in Hown.
  destruct t as [| t]; [| done].
  change (globalSymbols !! name = Some (Some x)) in Hown.
  apply elem_of_list_to_map_2 in Hown.
  repeat (apply elem_of_cons in Hown as [[= _ ->] | Hown];
          [by apply list_elem_of_singleton in Hin |]).
  by apply elem_of_nil in Hown.
Qed.

(** X2 at the list [[1, 2]]. *)
Lemma X2_witness :
  visitListNode (visit 1 defaultMaxCallStackSize) [one; two] (at_column 0)
    (at_column 6) globalContext (initialWorld [])
  = (Done
       (success newRTResult
          (Some (SWList [Some (numberAt 1 1 2); Some (numberAt 2 4 5)]
                   (mkStamp (Some (at_column 0)) (Some (at_column 6))
                      (Some globalContext))))),
     initialWorld [])
  ∧ length [Some (numberAt 1 1 2); Some (numberAt 2 4 5)]
    = length [one; two].
Proof.
  apply (X2_list_values_in_order (visit 1 defaultMaxCallStackSize)).
  vm_compute. reflexivity.
Defined.

(** X3 at the list [[1, x, 2]], where [x] is not defined. *)
Lemma X3_witness :
  visitListNode (visit 1 defaultMaxCallStackSize) ([one] ++ unbound :: [two])
    (at_column 0) (at_column 9) globalContext (initialWorld [])
  = (Done (failure newRTResult notDefined), initialWorld []).
Proof.
  apply (X3_list_stops_at_first_error (visit 1 defaultMaxCallStackSize)
           [one] [two] unbound (at_column 0) (at_column 9) globalContext
           [Some (numberAt 1 1 2)] notDefined (initialWorld [])
           (initialWorld []) (initialWorld []));
    vm_compute; reflexivity.
Defined.

(** X4 at the call [andika(1, x)]: no table is made for the call. *)
Lemma X4_witness :
  visit 2 defaultMaxCallStackSize
    (CallNode (VarAccessNode "andika" (at_column 20) (at_column 26))
       ([one] ++ unbound :: []) (at_column 20) (at_column 30))
    globalContext (initialWorld [])
  = (Done (failure newRTResult notDefined), initialWorld []).
Proof.
  apply (X4_call_stops_at_failing_argument 0 defaultMaxCallStackSize
           "andika" (at_column 20) (at_column 26) (at_column 20)
           (at_column 30) [one] [] unbound globalContext
           (SWBuiltInFunction andika fresh) [Some (numberAt 1 1 2)]
           notDefined (initialWorld []) (initialWorld []) (initialWorld []));
    vm_compute; reflexivity.
Defined.

(** X5 at the call [andika(1, 2)]. *)
Lemma X5_witness :
  visit 2 defaultMaxCallStackSize
    (CallNode (VarAccessNode "andika" (at_column 20) (at_column 26))
       [one; two] (at_column 20) (at_column 30))
    globalContext (initialWorld [])
  = (Done
       (failure newRTResult
          (mkRTError (Some (at_column 20)) (Some (at_column 30))
             "1 too many args passed into andika" (Some globalContext))),
     withNewTable ∅ (Some 0%nat) (initialWorld [])).
Proof.
  apply (X5_arity_is_checked_after_the_arguments 0 defaultMaxCallStackSize
           "andika" (at_column 20) (at_column 26) (at_column 20)
           (at_column 30) [one; two] globalContext
           (SWBuiltInFunction andika fresh)
           [Some (numberAt 1 1 2); Some (numberAt 2 4 5)] (initialWorld [])
           (initialWorld []));
    [vm_compute; reflexivity .. | vm_compute; lia].
Defined.

(** X6 at [andika] executed with JavaScript's [null] as its argument. *)
Lemma X6_witness :
  execute (visit 0) andikaAtCall [None] (initialWorld [])
  = (Throw (TypeError "Cannot read properties of null"),
     withNewTable ∅ (Some 0%nat) (initialWorld [])).
Proof.
  apply (X6_null_argument_throws (visit 0) andikaAtCall globalContext []
           [] (initialWorld []));
    reflexivity.
Defined.


(** X8 at [kama uwongo { 1 } au kweli { 2 } au x { 1 }]: the third
    condition, which is not defined, is not evaluated. *)
Lemma X8_witness :
  visitIfNode (visit 1 defaultMaxCallStackSize)
    ([(uwongo, one)] ++ (kweli, two) :: [(unbound, one)]) None globalContext
    (initialWorld [])
  = (Done (success newRTResult (Some (numberAt 2 4 5))), initialWorld []).
Proof.
  apply (X8_first_truthy_case_wins (visit 1 defaultMaxCallStackSize)
           [(uwongo, one)] [(unbound, one)] kweli two None globalContext
           (SWBoolean true
              (mkStamp (Some (at_column 10)) (Some (at_column 15))
                 (Some globalContext)))
           (success newRTResult (Some (numberAt 2 4 5))) (initialWorld [])
           (initialWorld []) (initialWorld []) (initialWorld []));
    vm_compute; reflexivity.
Defined.

(** X9 at [kama uwongo { 1 }]. *)
Lemma X9_witness :
  visitIfNode (visit 1 defaultMaxCallStackSize) [(uwongo, one)] None
    globalContext (initialWorld [])
  = (Done (success newRTResult None), initialWorld []).
Proof.
  apply (X9_no_case_holds (visit 1 defaultMaxCallStackSize) [(uwongo, one)]
           None globalContext (initialWorld []) (initialWorld [])).
  vm_compute. reflexivity.
Defined.

(** X10 at [andika + 1]. *)
Lemma X10_witness :
  visitBinOpNode (visit 1 defaultMaxCallStackSize) andikaNode PLUS one
    (at_column 0) (at_column 20) globalContext (initialWorld [])
  = (Done
       (failure newRTResult
          (mkRTError (Some (at_column 10)) (Some (at_column 2))
             "Illegal operation" (Some globalContext))), initialWorld []).
Proof.
  apply (X10_binary_operators_reject_functions
           (visit 1 defaultMaxCallStackSize) andikaNode one PLUS
           (at_column 0) (at_column 20) globalContext
           (restamped (SWBuiltInFunction andika fresh) (at_column 10)
              (at_column 16) globalContext)
           (success newRTResult (Some (numberAt 1 1 2))) (initialWorld [])
           (initialWorld []) (initialWorld []));
    try (vm_compute; reflexivity).
  discriminate.
Defined.

(** X11 at [-andika]. *)
Lemma X11_witness :
  visitUnaryOpNode (visit 1 defaultMaxCallStackSize) MINUS andikaNode
    (at_column 9) (at_column 16) globalContext (initialWorld [])
  = (Done
       (failure newRTResult
          (mkRTError (Some (at_column 10)) None "Illegal operation"
             (Some globalContext))), initialWorld []).
Proof.
  apply (X11_unary_minus_rejects_functions
           (visit 1 defaultMaxCallStackSize) andikaNode (at_column 9)
           (at_column 16) globalContext
           (restamped (SWBuiltInFunction andika fresh) (at_column 10)
              (at_column 16) globalContext)
           (initialWorld []) (initialWorld []));
    vm_compute; reflexivity.
Defined.

(** X12 at [niShughuli] applied to [andika], and to a Number. *)
Lemma X12_witness :
  let this :=
    restamped (SWBuiltInFunction niShughuli fresh) (at_column 20)
      (at_column 30) globalContext in
  fst (execute (visit 0) this [Some andikaAtCall] (initialWorld []))
  = Done (success newRTResult (Some (SWBoolean true fresh)))
  ∧ fst (execute (visit 0) this [Some (numberAt 1 1 2)] (initialWorld []))
    = Done (success newRTResult (Some (SWBoolean false fresh))).
Proof.
  intros this. split.
  - rewrite (X12_type_checks (visit 0) niShughuli
               (mkStamp (Some (at_column 20)) (Some (at_column 30))
                  (Some globalContext))
               globalContext andikaAtCall (initialWorld []) eq_refl).
    + reflexivity.
    + do 3 apply list_elem_of_further. apply list_elem_of_here.
  - rewrite (X12_type_checks (visit 0) niShughuli
               (mkStamp (Some (at_column 20)) (Some (at_column 30))
                  (Some globalContext))
               globalContext (numberAt 1 1 2) (initialWorld []) eq_refl).
    + reflexivity.
    + do 3 apply list_elem_of_further. apply list_elem_of_here.
Defined.


(** X14 at [soma(7)] with the lines [jina] and [pili] waiting, and with
    no line left. *)
Lemma X14_witness :
  let this :=
    SWBuiltInFunction soma
      (mkStamp (Some (at_column 20)) (Some (at_column 30))
         (Some globalContext)) in
  let run lines :=
    execute (visit 0) this [Some (numberAt 7 1 2)] (initialWorld lines) in
  fst (run ["jina"; "pili"])
  = Done (success newRTResult (Some (SWString "jina" fresh)))
  ∧ output (snd (run ["jina"; "pili"])) = [Prompted "7"]
  ∧ input (snd (run ["jina"; "pili"])) = ["pili"]
  ∧ fst (run [])
    = Done (success newRTResult (Some (SWString EmptyString fresh))).
Proof.
  intros this run. unfold run, this.
  rewrite !(X14_soma_reads_one_line (visit 0)
              (mkStamp (Some (at_column 20)) (Some (at_column 30))
                 (Some globalContext))
              globalContext _ _ eq_refl).
  by repeat split.
Defined.

(** X15 at [somaNambari(7)] with the lines [abc], [12] and [pili]
    waiting: one retry, and [pili] is left. *)
Lemma X15_witness :
  let this :=
    SWBuiltInFunction somaNambari
      (mkStamp (Some (at_column 20)) (Some (at_column 30))
         (Some globalContext)) in
  let after :=
    snd (execute (visit 0) this [Some (numberAt 7 1 2)]
           (initialWorld ["abc"; "12"; "pili"])) in
  output after
  = [Prompted "7"; Printed "Jibu yako si nambari. Jaribu tena.";
     Prompted "7"]
  ∧ input after = ["pili"].
Proof.
  intros this after.
  refine (X15_somaNambari_asks_again (visit 0)
            (mkStamp (Some (at_column 20)) (Some (at_column 30))
               (Some globalContext))
            globalContext (numberAt 7 1 2)
            (initialWorld ["abc"; "12"; "pili"]) ["abc"] ["12"; "pili"]
            eq_refl eq_refl _ _).
  - by repeat constructor.
  - intros line [= <-]. by eexists.
Defined.

(** X16 at [kwa i = 1 mpaka 4 { 0 }]: three turns. *)
Lemma X16_witness :
  fst (visit 4 defaultMaxCallStackSize countToFour globalContext
         (initialWorld []))
  = Done
      (success newRTResult
         (Some (SWList
                  [Some (numberAt 0 20 21); Some (numberAt 0 20 21);
                   Some (numberAt 0 20 21)]
                  (mkStamp (Some (at_column 0)) (Some (at_column 23))
                     (Some globalContext))))).
Proof.
  rewrite (X16_for_loop_gives_the_body_values 3 defaultMaxCallStackSize "i"
             (NumberNode 1 (at_column 8) (at_column 9))
             (NumberNode 4 (at_column 16) (at_column 17)) None
             (NumberNode 0 (at_column 20) (at_column 21))
             (at_column 0) (at_column 23) globalContext 3 1 4 1
             [Some (numberAt 0 20 21); Some (numberAt 0 20 21);
              Some (numberAt 0 20 21)]
             (initialWorld []) (initialWorld [])
             (set 0%nat "i" (Some (SWNumber 3 fresh)) (initialWorld [])));
    [reflexivity | vm_compute; reflexivity .. | lia].
Defined.

(** X17 at [wakati endelea { endelea = uwongo }], started where [endelea]
    is true: one turn. *)
Lemma X17_witness :
  fst (visit 4 defaultMaxCallStackSize onceMore globalContext endeleaIsTrue)
  = Done
      (success newRTResult
         (Some (SWList
                  [Some (SWBoolean false
                           (mkStamp (Some (at_column 10))
                              (Some (at_column 16)) (Some globalContext)))]
                  (mkStamp (Some (at_column 0)) (Some (at_column 35))
                     (Some globalContext))))).
Proof.
  set (no :=
         SWBoolean false
           (mkStamp (Some (at_column 10)) (Some (at_column 16))
              (Some globalContext))).
  set (w1 := set 0%nat "endelea" (Some no) endeleaIsTrue).
  rewrite (X17_while_loop_gives_the_body_values 3 defaultMaxCallStackSize
             (VarAccessNode "endelea" (at_column 7) (at_column 14))
             (VarAssignNode "endelea" uwongo (at_column 17) (at_column 33))
             (at_column 0) (at_column 35) globalContext 1 [Some no]
             (SWBoolean false
                (mkStamp (Some (at_column 7)) (Some (at_column 14))
                   (Some globalContext)))
             endeleaIsTrue w1 w1);
    [reflexivity | vm_compute; reflexivity .. | lia].
Defined.

(** X18 at [x = 1] followed by [x] in the global context. *)
Lemma X18_witness :
  let w2 := set 0%nat "x" (Some (numberAt 1 1 2)) (initialWorld []) in
  visitVarAssignNode (visit 1 defaultMaxCallStackSize) "x" one globalContext
    (initialWorld [])
  = (Done (success newRTResult (Some (numberAt 1 1 2))), w2)
  ∧ visitVarAccessNode "x" (at_column 7) (at_column 8) globalContext w2
    = (Done (success newRTResult (Some (numberAt 1 7 8))), w2).
Proof.
  intros w2.
  refine (X18_assign_then_access (visit 1 defaultMaxCallStackSize) "x" one
            (at_column 7) (at_column 8) globalContext
            (success newRTResult (Some (numberAt 1 1 2))) (numberAt 1 1 2)
            (initialWorld []) (initialWorld []) eq_refl eq_refl eq_refl _).
  by eexists.
Defined.

(** X19 at the line feed. *)
Lemma X19_witness :
  Lexemes.pattern Lexemes.lineEndings 10 = true
  ∧ Lexemes.pattern Lexemes.spacesAndTabs 10 = true.
Proof.
  apply (X19_lexemes_overlap_only_at_line_ends Lexemes.lineEndings
           Lexemes.spacesAndTabs 10); [discriminate |].
  split; [by left | by left].
Defined.

(** X20 at parameters [a] and [b] with the one argument [1], and a shared
    Null that has no context yet: [b] is bound to the Null, which now
    carries the execution context, and so does the value of the result. *)
Lemma X20_witness :
  ∃ w',
    BaseFunction.populateArgs 0%nat (Some ["a"; "b"])
      (Some <$> [numberAt 1 1 2]) globalContext true (SWNull fresh)
      (initialWorld [])
    = (Done
         (success newRTResult
            (Some (SWNull (mkStamp None None (Some globalContext))))), w')
    ∧ ownBinding 0%nat "b" w'
      = Some (Some (SWNull (mkStamp None None (Some globalContext)))).
Proof.
  refine (X20_missing_arguments_are_null 0%nat ["a"; "b"] [numberAt 1 1 2]
            globalContext true (SWNull fresh) (initialWorld []) 1 "b" _ _ _
            eq_refl _ _).
  - by eexists.
  - repeat constructor; [apply initialWorld_holds_no_number | done].
  - apply NoDup_cons. split; [| apply NoDup_singleton].
    by intros Heq%list_elem_of_singleton.
  - simpl. lia.
  - discriminate.
Defined.

(** X21 at the call [idadi("hello")]: the Number 5 that the handler
    answers comes back positioned at the call. *)
Lemma X21_witness :
  fst (visit 2 defaultMaxCallStackSize (idadiOf helloNode) globalContext
         (initialWorld []))
  = Done
      (success newRTResult
         (Some (SWNumber 5
                  (mkStamp (Some (at_column 0)) (Some (at_column 14))
                     (Some globalContext))))).
Proof.
  set (hello :=
         SWString "hello"
           (mkStamp (Some (at_column 6)) (Some (at_column 13))
              (Some globalContext))).
  set (ec :=
         mkContext "idadi" (Some globalContext) (Some (at_column 0)) 1%nat).
  set (w2 :=
         withNewTable {["value" := Some (setContext (Some ec) hello)]}
           (Some 0%nat) (initialWorld [])).
  unfold idadiOf.
  rewrite (X21_value_of_a_call 0 defaultMaxCallStackSize "idadi"
             (at_column 0) (at_column 5) (at_column 0) (at_column 14)
             [helloNode] globalContext (SWBuiltInFunction idadi fresh)
             [hello] (success newRTResult (Some (SWNumber 5 fresh)))
             (initialWorld []) (initialWorld []) w2);
    [reflexivity | vm_compute; reflexivity ..].
Defined.

End FurtherRuns.
